(** * cleanup_cache_files: pruning of dated cache and report artifacts

    A shallow embedding of [cleanup_cache_files.py] and the properties of
    its date extraction, skip filter, candidate scan and retention
    decision.

    Conventions of the embedding.
    - A Python [str] is a [string]; its characters are the code points
      U+0000..U+00FF.  In that range the class [\d] of [re] is exactly
      [0-9] and [str.lower] acts character by character.
    - A [pathlib.Path] is the list of its parts; the file system is a
      finite map from paths to node kinds, and [rglob] enumerates it in
      the order of [map_to_list].
    - Code that prints, reads the clock or touches the file system runs
      in a state-and-exception monad [M] over a [world]. *)

From stdpp Require Import gmap strings list fin_maps pretty.
From Stdlib Require Import ZArith Lia Ascii.

Local Open Scope Z_scope.

(** ** Exceptions and results *)

Inductive exn : Type :=
| ValueError
| FileNotFoundError
| IsADirectoryError
| SystemExit (code : Z).

Inductive result (A : Type) : Type :=
| Ok (a : A)
| Raise (e : exn).
Arguments Ok {A} a.
Arguments Raise {A} e.

Definition rbind {A B} (r : result A) (k : A -> result B) : result B :=
  match r with
  | Ok a => k a
  | Raise e => Raise e
  end.

Fixpoint rmap {A B} (f : A -> result B) (l : list A) : result (list B) :=
  match l with
  | [] => Ok []
  | x :: l' => rbind (f x) (fun y => rbind (rmap f l') (fun ys => Ok (y :: ys)))
  end.

(** ** Characters and strings *)

Module Str.

Definition code (c : ascii) : Z := Z.of_N (N_of_ascii c).

(** [\d] on a character below U+0100. *)
Definition is_digit (c : ascii) : bool := (48 <=? code c) && (code c <=? 57).

Definition digit_value (c : ascii) : Z := code c - 48.

Fixpoint all_digits (s : string) : bool :=
  match s with
  | EmptyString => true
  | String c s' => is_digit c && all_digits s'
  end.

(** [str.lower] on one character: A-Z and the Latin-1 capitals
    U+00C0..U+00DE (the multiplication sign U+00D7 apart) move up by 32. *)
Definition lower_char (c : ascii) : ascii :=
  let n := code c in
  if ((65 <=? n) && (n <=? 90)) || ((192 <=? n) && (n <=? 222) && negb (n =? 215))
  then ascii_of_N (Z.to_N (n + 32))
  else c.

Fixpoint lower (s : string) : string :=
  match s with
  | EmptyString => EmptyString
  | String c s' => String (lower_char c) (lower s')
  end.

(** [s.startswith(p)] *)
Fixpoint startswith (s p : string) : bool :=
  match p, s with
  | EmptyString, _ => true
  | String a p', String b s' => if decide (a = b) then startswith s' p' else false
  | String _ _, EmptyString => false
  end.

(** [p in s] *)
Fixpoint contains (s p : string) : bool :=
  startswith s p ||
  match s with
  | EmptyString => false
  | String _ s' => contains s' p
  end.

Fixpoint drop (n : nat) (s : string) : string :=
  match n, s with
  | O, _ => s
  | S n', String _ s' => drop n' s'
  | S _, EmptyString => EmptyString
  end.

(** [s.rfind(".")], as the suffix starting at the last dot together with
    the index of that dot. *)
Fixpoint rfind_dot (s : string) (i : nat) : option (nat * string) :=
  match s with
  | EmptyString => None
  | String c s' =>
      match rfind_dot s' (S i) with
      | Some r => Some r
      | None => if decide (c = "."%char) then Some (i, s) else None
      end
  end.

(** [int(s)] on a string of decimal digits; anything else is rejected
    here, which is stricter than Python (signs, blanks and underscores
    are not accepted). *)
Fixpoint int_acc (acc : Z) (s : string) : result Z :=
  match s with
  | EmptyString => Ok acc
  | String c s' =>
      if is_digit c then int_acc (10 * acc + digit_value c) s' else Raise ValueError
  end.

Definition int (s : string) : result Z :=
  match s with
  | EmptyString => Raise ValueError
  | _ => int_acc 0 s
  end.

(** [str(n)] for an integer. *)
Definition of_Z (n : Z) : string := pretty n.

(** ["%0<w>d" % n] for a natural number [n]. *)
Fixpoint zeros (k : nat) : string :=
  match k with
  | O => ""
  | S k' => String "0" (zeros k')
  end.

Definition zfill (w : nat) (n : Z) : string :=
  let s := of_Z n in zeros (w - String.length s)%nat +:+ s.

End Str.

(** ** The fragment of [re] used by [DATE_PATTERNS]

    A pattern is a sequence of atoms: [Digits n] is the capturing group
    [(\d{n})], [Lit c] the literal character [c].  Such a pattern matches
    at a position in at most one way, so matching needs no backtracking. *)

Module Re.

Inductive atom : Type :=
| Digits (n : nat)
| Lit (c : ascii).

Definition regex : Type := list atom.

Definition atom_width (a : atom) : nat :=
  match a with
  | Digits n => n
  | Lit _ => 1
  end.

Definition width (re : regex) : nat := sum_list (atom_width <$> re).

(** Read exactly [n] digits off the front of [s]. *)
Fixpoint take_digits (n : nat) (s : string) : option (string * string) :=
  match n with
  | O => Some (EmptyString, s)
  | S n' =>
      match s with
      | String c s' =>
          if Str.is_digit c
          then match take_digits n' s' with
               | Some (g, rest) => Some (String c g, rest)
               | None => None
               end
          else None
      | EmptyString => None
      end
  end.

(** [pattern.match] anchored at the front of [s]: the captured groups. *)
Fixpoint match_here (re : regex) (s : string) : option (list string) :=
  match re with
  | [] => Some []
  | Digits n :: re' =>
      match take_digits n s with
      | Some (g, rest) =>
          match match_here re' rest with
          | Some gs => Some (g :: gs)
          | None => None
          end
      | None => None
      end
  | Lit c :: re' =>
      match s with
      | String c' rest => if decide (c = c') then match_here re' rest else None
      | EmptyString => None
      end
  end.

Record Match : Type := mkMatch { m_start : nat; m_groups : list string }.

(** The scan of [finditer]: try the pattern at the current position; on
    a match record it and resume right after it, otherwise move one
    character on.  [skip] counts the characters of the current match
    still to be stepped over.  (Every pattern here has a positive width,
    so nothing matches at the end of the string.) *)
Fixpoint scan (re : regex) (s : string) (pos skip : nat) : list Match :=
  match s with
  | EmptyString => []
  | String _ s' =>
      match skip with
      | S k => scan re s' (S pos) k
      | O =>
          match match_here re s with
          | Some gs => mkMatch pos gs :: scan re s' (S pos) (width re - 1)%nat
          | None => scan re s' (S pos) 0
          end
      end
  end.

Definition finditer (re : regex) (s : string) : list Match := scan re s 0 0.

End Re.

(** ** [datetime.date] *)

Module Date.

Record date : Type := mkDate { year : Z; month : Z; day : Z }.

Definition MINYEAR : Z := 1.
Definition MAXYEAR : Z := 9999.

Definition is_leap (y : Z) : bool :=
  (y mod 4 =? 0) && (negb (y mod 100 =? 0) || (y mod 400 =? 0)).

Definition DAYS_IN_MONTH (m : Z) : Z :=
  match m with
  | 1 => 31 | 2 => 28 | 3 => 31 | 4 => 30 | 5 => 31 | 6 => 30
  | 7 => 31 | 8 => 31 | 9 => 30 | 10 => 31 | 11 => 30 | 12 => 31
  | _ => -1
  end.

Definition DAYS_BEFORE_MONTH (m : Z) : Z :=
  match m with
  | 1 => 0 | 2 => 31 | 3 => 59 | 4 => 90 | 5 => 120 | 6 => 151
  | 7 => 181 | 8 => 212 | 9 => 243 | 10 => 273 | 11 => 304 | 12 => 334
  | _ => -1
  end.

Definition days_in_month (y m : Z) : Z :=
  if (m =? 2) && is_leap y then 29 else DAYS_IN_MONTH m.

Definition check_date_fields (y m d : Z) : bool :=
  (MINYEAR <=? y) && (y <=? MAXYEAR) &&
  (1 <=? m) && (m <=? 12) &&
  (1 <=? d) && (d <=? days_in_month y m).

(** [dt.date(year, month, day)] *)
Definition new (y m d : Z) : result date :=
  if check_date_fields y m d then Ok (mkDate y m d) else Raise ValueError.

Definition days_before_year (y : Z) : Z :=
  let y' := y - 1 in y' * 365 + y' / 4 - y' / 100 + y' / 400.

Definition days_before_month (y m : Z) : Z :=
  DAYS_BEFORE_MONTH m + (if (2 <? m) && is_leap y then 1 else 0).

Definition toordinal (d : date) : Z :=
  days_before_year (year d) + days_before_month (year d) (month d) + day d.

(** [(a - b).days] *)
Definition sub_days (a b : date) : Z := toordinal a - toordinal b.

(** [str(d)], the ISO form. *)
Definition isoformat (d : date) : string :=
  Str.zfill 4 (year d) +:+ "-" +:+ Str.zfill 2 (month d) +:+ "-" +:+ Str.zfill 2 (day d).

Definition valid (d : date) : Prop :=
  check_date_fields (year d) (month d) (day d) = true.

(** Order of dates, as Python compares them. *)
Definition lt (a b : date) : Prop :=
  year a < year b \/
  (year a = year b /\ (month a < month b \/ (month a = month b /\ day a < day b))).

End Date.

Export Date(date).

(** ** Date extraction *)

Definition hyphenated : Re.regex :=
  [Re.Digits 4; Re.Lit "-"; Re.Digits 2; Re.Lit "-"; Re.Digits 2].

Definition compact : Re.regex :=
  [Re.Digits 4; Re.Digits 2; Re.Digits 2].

Definition DATE_PATTERNS : list Re.regex := [hyphenated; compact].

(** [year, month, day = (int(part) for part in groups)] followed by the
    guarded call of [dt.date]. *)
Definition date_of_groups (groups : list string) : result (option date) :=
  rbind (rmap Str.int groups) (fun parts =>
    match parts with
    | [y; m; d] =>
        match Date.new y m d with
        | Ok dt => Ok (Some dt)
        | Raise ValueError => Ok None
        | Raise e => Raise e
        end
    | _ => Raise ValueError
    end).

Fixpoint extract_date_from (patterns : list Re.regex) (filename : string)
  : result (option date) :=
  match patterns with
  | [] => Ok None
  | pattern :: rest =>
      match last (Re.finditer pattern filename) with
      | None => extract_date_from rest filename
      | Some m => date_of_groups (Re.m_groups m)
      end
  end.

Definition extract_date_from_filename (filename : string) : result (option date) :=
  extract_date_from DATE_PATTERNS filename.

(** ** Paths, the file system and the world *)

Abbreviation Path := (list string).

Module PathOps.

(** [path.name]: the final part. *)
Definition name (p : Path) : string := default "" (last p).

(** [path.suffix]: from the last dot of the name on, unless that dot
    opens or closes the name (pathlib up to Python 3.12). *)
Definition suffix (p : Path) : string :=
  match Str.rfind_dot (name p) 0 with
  | Some (i, ext) =>
      if decide (0 < i /\ 1 < String.length ext)%nat then ext else ""
  | None => ""
  end.

(** [str(path)] *)
Definition to_str (p : Path) : string := String.concat "/" p.

(** [p] lies below [root]. *)
Definition below (root p : Path) : Prop := root `prefix_of` p /\ p <> root.

Global Instance below_dec root p : Decision (below root p).
Proof. unfold below. apply _. Defined.

End PathOps.

Inductive node : Type := File | Dir.

Global Instance node_eq_dec : EqDecision node.
Proof. solve_decision. Defined.

Record world : Type := mkWorld {
  fs : gmap Path node;        (* the directory tree *)
  clock : date;               (* the calendar date of the invocation *)
  stdout : list string        (* the lines printed so far *)
}.

(** Computations that may change the world and may raise. *)
Definition M (A : Type) : Type := world -> result A * world.

Definition ret {A} (a : A) : M A := fun w => (Ok a, w).

Definition bind {A B} (m : M A) (k : A -> M B) : M B :=
  fun w =>
    match m w with
    | (Ok a, w') => k a w'
    | (Raise e, w') => (Raise e, w')
    end.

Notation "'let*' x ':=' m 'in' k" := (bind m (fun x => k))
  (at level 10, x name, m at level 100, k at level 200).

Definition lift {A} (r : result A) : M A := fun w => (r, w).

Definition print (line : string) : M unit :=
  fun w => (Ok tt, mkWorld (fs w) (clock w) (stdout w ++ [line])%list).

(** [dt.datetime.now().date()] *)
Definition today_date : M date := fun w => (Ok (clock w), w).

(** [path.exists()] and [path.is_file()] *)
Definition path_exists (p : Path) : M bool :=
  fun w => (Ok (bool_decide (is_Some (fs w !! p))), w).

Definition is_file (tree : gmap Path node) (p : Path) : bool :=
  bool_decide (tree !! p = Some File).

(** [path.unlink(missing_ok)] *)
Definition unlink (p : Path) (missing_ok : bool) : M unit :=
  fun w =>
    match fs w !! p with
    | Some File => (Ok tt, mkWorld (delete p (fs w)) (clock w) (stdout w))
    | Some Dir => (Raise IsADirectoryError, w)
    | None => if missing_ok then (Ok tt, w) else (Raise FileNotFoundError, w)
    end.

(** [root.rglob("*")]: every entry below [root]. *)
Definition rglob (root : Path) (tree : gmap Path node) : list Path :=
  filter (PathOps.below root) (map_to_list tree).*1.

(** ** The script *)

Definition normalize_extensions (exts : list string) : list string :=
  (fun ext => if Str.startswith ext "." then Str.lower ext else "." +:+ Str.lower ext)
    <$> exts.

Definition should_skip (path : Path) (skip_tokens : list string) : bool :=
  let lowercase_name := Str.lower (PathOps.name path) in
  existsb (fun token => Str.contains lowercase_name (Str.lower token)) skip_tokens.

(** One turn of the loop of [gather_candidates] at [file_path]: the pair
    it yields, if it yields one. *)
Definition candidate (tree : gmap Path node) (extensions skip_tokens : list string)
    (file_path : Path) : result (option (Path * date)) :=
  if negb (is_file tree file_path) then Ok None
  else if negb (bool_decide (Str.lower (PathOps.suffix file_path) ∈ extensions)) then Ok None
  else if should_skip file_path skip_tokens then Ok None
  else
    rbind (extract_date_from_filename (PathOps.name file_path)) (fun extracted_date =>
      match extracted_date with
      | None => Ok None
      | Some d => Ok (Some (file_path, d))
      end).

Fixpoint candidates_of (tree : gmap Path node) (extensions skip_tokens : list string)
    (entries : list Path) : result (list (Path * date)) :=
  match entries with
  | [] => Ok []
  | file_path :: rest =>
      rbind (candidate tree extensions skip_tokens file_path) (fun c =>
      rbind (candidates_of tree extensions skip_tokens rest) (fun cs =>
        Ok (match c with Some x => x :: cs | None => cs end)))
  end.

(** The generator run to its end over a tree that does not change. *)
Definition gather_candidates (root : Path) (extensions skip_tokens : list string)
    (tree : gmap Path node) : result (list (Path * date)) :=
  candidates_of tree extensions skip_tokens (rglob root tree).

Definition delete_line (path : Path) (file_date : date) (age_days : Z) : string :=
  "[CLEANUP] " +:+ PathOps.to_str path +:+ " -> dated " +:+ Date.isoformat file_date
    +:+ " (" +:+ Str.of_Z age_days +:+ " days old)".

Definition summary_line (root : Path) (deleted : Z) (dry_run : bool) : string :=
  "[CLEANUP] Completed scanning " +:+ PathOps.to_str root +:+ ". "
    +:+ "Removed " +:+ Str.of_Z deleted +:+ " file(s). Dry-run: "
    +:+ (if dry_run then "yes" else "no") +:+ ".".

(** The body of the loop of [cleanup] for one yielded pair. *)
Definition cleanup_body (today : date) (keep_days : Z) (dry_run : bool)
    (c : Path * date) (acc : Z * list Path) : M (Z * list Path) :=
  let '(path, file_date) := c in
  let '(deleted, deleted_paths) := acc in
  let age_days := Date.sub_days today file_date in
  if age_days >? keep_days then
    (let* _ := print (delete_line path file_date age_days) in
     let* _ := (if negb dry_run then unlink path true else ret tt) in
     ret (deleted + 1, (deleted_paths ++ [path])%list))
  else ret acc.

(** The loop of [cleanup] driving the generator: each entry is examined
    in the tree as it is when the generator reaches it. *)
Fixpoint cleanup_loop (today : date) (keep_days : Z) (dry_run : bool)
    (extensions skip_tokens : list string) (entries : list Path)
    (acc : Z * list Path) : M (Z * list Path) :=
  match entries with
  | [] => ret acc
  | file_path :: rest =>
      fun w =>
        (let* c := lift (candidate (fs w) extensions skip_tokens file_path) in
         let* acc' := match c with
                 | Some x => cleanup_body today keep_days dry_run x acc
                 | None => ret acc
                 end in
         cleanup_loop today keep_days dry_run extensions skip_tokens rest acc') w
  end.

Definition cleanup (root : Path) (keep_days : Z) (extensions skip_tokens : list string)
    (dry_run : bool) : M (Z * list Path) :=
  let* today := today_date in
  let* entries := (fun w => (Ok (rglob root (fs w)), w)) in
  let* r := cleanup_loop today keep_days dry_run extensions skip_tokens entries (0, []) in
  let* _ := print (summary_line root (fst r) dry_run) in
  ret r.

(** *** The command line

    The command line is taken as the sequence of option occurrences that
    [argparse] recognises on it; each occurrence runs the action of its
    option on the namespace, which starts from the defaults. *)

Inductive arg : Type :=
| ArgPath (p : Path)
| ArgDays (n : Z)
| ArgExtensions (exts : list string)
| ArgSkipToken (t : string)
| ArgDryRun.

Record Namespace : Type := mkNamespace {
  ns_path : option Path;
  ns_days : Z;
  ns_extensions : list string;
  ns_skip_tokens : list string;
  ns_dry_run : bool
}.

Definition defaults : Namespace :=
  mkNamespace None 5 [".json"] ["latest"] false.

Definition run_action (ns : Namespace) (a : arg) : result Namespace :=
  match a with
  | ArgPath p =>                                   (* store *)
      Ok (mkNamespace (Some p) (ns_days ns) (ns_extensions ns) (ns_skip_tokens ns) (ns_dry_run ns))
  | ArgDays n =>                                   (* store, type=int *)
      Ok (mkNamespace (ns_path ns) n (ns_extensions ns) (ns_skip_tokens ns) (ns_dry_run ns))
  | ArgExtensions [] => Raise (SystemExit 2)       (* nargs="+" *)
  | ArgExtensions exts =>
      Ok (mkNamespace (ns_path ns) (ns_days ns) exts (ns_skip_tokens ns) (ns_dry_run ns))
  | ArgSkipToken t =>                              (* append *)
      Ok (mkNamespace (ns_path ns) (ns_days ns) (ns_extensions ns) (ns_skip_tokens ns ++ [t])%list (ns_dry_run ns))
  | ArgDryRun =>                                   (* store_true *)
      Ok (mkNamespace (ns_path ns) (ns_days ns) (ns_extensions ns) (ns_skip_tokens ns) true)
  end.

Fixpoint run_actions (ns : Namespace) (argv : list arg) : result Namespace :=
  match argv with
  | [] => Ok ns
  | a :: argv' => rbind (run_action ns a) (fun ns' => run_actions ns' argv')
  end.

Definition parse_args (argv : list arg) : result Namespace :=
  rbind (run_actions defaults argv) (fun ns =>
    match ns_path ns with
    | Some _ => Ok ns
    | None => Raise (SystemExit 2)                 (* required=True *)
    end).

Definition missing_line (target_dir : Path) : string :=
  "[CLEANUP] Directory " +:+ PathOps.to_str target_dir +:+ " does not exist. Nothing to do.".

Definition main (argv : list arg) : M unit :=
  let* args := lift (parse_args argv) in
  let target_dir := default [] (ns_path args) in
  let* present := path_exists target_dir in
  if negb present then
    print (missing_line target_dir)
  else
    let extensions := normalize_extensions (ns_extensions args) in
    let* _ := cleanup target_dir (Z.max (ns_days args) 0) extensions
           (ns_skip_tokens args) (ns_dry_run args) in
    ret tt.


(** ** Specification vocabulary *)

Module Spec.

(** The number a string of decimal digits denotes. *)
Fixpoint decimal (s : string) : Z :=
  match s with
  | EmptyString => 0
  | String c s' => Str.digit_value c * 10 ^ Z.of_nat (String.length s') + decimal s'
  end.

(** [body] has the shape of [re] and [gs] are its digit groups. *)
Inductive shape : Re.regex -> string -> list string -> Prop :=
| shape_nil : shape [] "" []
| shape_digits n re g body gs :
    String.length g = n -> Str.all_digits g = true -> shape re body gs ->
    shape (Re.Digits n :: re) (g +:+ body) (g :: gs)
| shape_lit c re body gs :
    shape re body gs -> shape (Re.Lit c :: re) (String c body) gs.

(** [re] occurs in [s] at position [p], with groups [gs]. *)
Definition occurs (re : Re.regex) (s : string) (p : nat) (gs : list string) : Prop :=
  exists pre body post,
    s = pre +:+ body +:+ post /\ String.length pre = p /\ shape re body gs.

(** The non-overlapping occurrences of [re] in [s] from position [from]
    on, taken from left to right: each one is the first occurrence that
    starts at or after the end of the one before. *)
Inductive occurrences (re : Re.regex) (s : string) : nat -> list Re.Match -> Prop :=
| occ_done from :
    (forall p gs, (from <= p)%nat -> ~ occurs re s p gs) ->
    occurrences re s from []
| occ_next from p gs ms :
    (from <= p)%nat ->
    occurs re s p gs ->
    (forall q gs', (from <= q < p)%nat -> ~ occurs re s q gs') ->
    occurrences re s (p + Re.width re) ms ->
    occurrences re s from (Re.mkMatch p gs :: ms).

(** The occurrence the extraction settles on: the last non-overlapping
    occurrence of the hyphenated shape, or, when that shape does not
    occur, the last one of the compact shape. *)
Definition chosen (filename : string) (m : Re.Match) : Prop :=
  (exists ms, occurrences hyphenated filename 0 (ms ++ [m])) \/
  (occurrences hyphenated filename 0 [] /\
   exists ms, occurrences compact filename 0 (ms ++ [m])).

(** The calendar date three digit groups denote, if they denote one. *)
Definition calendar_value (groups : list string) : option date :=
  match groups with
  | [y; m; d] =>
      let dt := Date.mkDate (decimal y) (decimal m) (decimal d) in
      if decide (Date.valid dt) then Some dt else None
  | _ => None
  end.

(** [p] is a substring of [s]. *)
Definition substring (p s : string) : Prop :=
  exists pre post, s = pre +:+ p +:+ post.

(** Some skip token occurs in the name of [path], case ignored. *)
Definition protected (path : Path) (skip_tokens : list string) : Prop :=
  exists token, token ∈ skip_tokens /\
    substring (Str.lower token) (Str.lower (PathOps.name path)).

(** The [--skip-token] values of a command line, in order. *)
Definition skip_token_values (argv : list arg) : list string :=
  omap (fun a => match a with ArgSkipToken t => Some t | _ => None end) argv.

End Spec.

(** ** Auxiliary notions *)

(** Three non-empty groups of digits. *)
Definition date_groups (gs : list string) : Prop :=
  exists y m d, gs = [y; m; d] /\
    Forall (fun g => Str.all_digits g = true /\ g <> "") [y; m; d].

(** One of the two patterns of [DATE_PATTERNS]. *)
Definition date_pattern (re : Re.regex) : Prop := re = hyphenated \/ re = compact.

(** The pair the generator yields at an entry, as a plain option. *)
Definition yields (tree : gmap Path node) (extensions skip_tokens : list string)
    (file_path : Path) : option (Path * date) :=
  match candidate tree extensions skip_tokens file_path with
  | Ok r => r
  | Raise _ => None
  end.

(** A candidate is older than the retention window. *)
Definition condemned (today : date) (keep_days : Z) (c : Path * date) : Prop :=
  keep_days < Date.sub_days today c.2.

Global Instance condemned_dec today keep_days c : Decision (condemned today keep_days c).
Proof. unfold condemned. apply _. Defined.

Definition remove_all (paths : list Path) (tree : gmap Path node) : gmap Path node :=
  foldl (fun t p => delete p t) tree paths.

Definition deletion_lines (today : date) (cs : list (Path * date)) : list string :=
  (fun c => delete_line c.1 c.2 (Date.sub_days today c.2)) <$> cs.

(** The candidates of a tree that a run at [today] deletes. *)
Definition doomed (today : date) (keep_days : Z) (root : Path)
    (extensions skip_tokens : list string) (tree : gmap Path node) : list (Path * date) :=
  filter (condemned today keep_days)
    (omap (yields tree extensions skip_tokens) (rglob root tree)).

(** The number of decimal digits in a string. *)
Fixpoint count_digits (s : string) : nat :=
  match s with
  | EmptyString => O
  | String c s' => ((if Str.is_digit c then 1 else 0) + count_digits s')%nat
  end.

(** No character of the string is a decimal digit. *)
Definition digit_free (s : string) : Prop := count_digits s = O.

(** The character at position [q] exists and is a decimal digit. *)
Definition digit_at (q : nat) (s : string) : bool :=
  match Str.drop q s with
  | String c _ => Str.is_digit c
  | EmptyString => false
  end.

(** The digits a pattern asks for. *)
Definition digits_needed (re : Re.regex) : nat :=
  sum_list ((fun a => match a with Re.Digits n => n | Re.Lit _ => O end) <$> re).

(** A group of exactly [n] decimal digits. *)
Definition digit_group (n : nat) (g : string) : Prop :=
  String.length g = n /\ Str.all_digits g = true.

(** [n] printed with [w] digits reads back as [n]. *)
Definition zfill_reads_back (w : nat) (n : Z) : bool :=
  Nat.eqb (String.length (Str.zfill w n)) w
  && Str.all_digits (Str.zfill w n)
  && (Spec.decimal (Str.zfill w n) =? n).

(** The paths [main] removes from a tree for parsed arguments [args]. *)
Definition main_doomed (args : Namespace) (target : Path) (w : world)
  : list (Path * date) :=
  doomed (clock w) (Z.max (ns_days args) 0) target
    (normalize_extensions (ns_extensions args)) (ns_skip_tokens args) (fs w).

(** A directory [logs] on 2025-01-10, with a dated file without suffix. *)
Definition archive_world : world :=
  mkWorld
    (list_to_map
       [ (["logs"], Dir);
         (["logs"; "backup_20200101"], File);
         (["logs"; "old_20200101.json"], File);
         (["logs"; "today_20250110.json"], File) ])
    (Date.mkDate 2025 1 10) [].

(** A directory [cache] on 2025-01-10. *)
Definition example_world : world :=
  mkWorld
    (list_to_map
       [ (["cache"], Dir);
         (["cache"; "report_20250101.json"], File);
         (["cache"; "data_latest_20250101.json"], File);
         (["cache"; "picks_2025-01-09.json"], File);
         (["cache"; "plan_20250201.json"], File) ])
    (Date.mkDate 2025 1 10) [].

(** * Properties *)

(** ** Strings *)

Lemma app_cons c s t : String c s +:+ t = String c (s +:+ t).
Proof. reflexivity. Qed.

Lemma app_empty_l s : "" +:+ s = s.
Proof. reflexivity. Qed.

Lemma app_empty_r s : s +:+ "" = s.
Proof. induction s as [|c s IH]; [done|]. by rewrite app_cons, IH. Qed.

Lemma str_app_assoc s t u : (s +:+ t) +:+ u = s +:+ t +:+ u.
Proof. induction s as [|c s IH]; [done|]. by rewrite !app_cons, IH. Qed.

Lemma length_str_app s t :
  String.length (s +:+ t) = (String.length s + String.length t)%nat.
Proof. induction s as [|c s IH]; [done|]. rewrite app_cons. simpl. by rewrite IH. Qed.

Lemma length_zero_empty s : String.length s = 0%nat -> s = "".
Proof. by destruct s. Qed.

Lemma drop_app_length pre t : Str.drop (String.length pre) (pre +:+ t) = t.
Proof. induction pre as [|c pre IH]; [by destruct t|]. rewrite app_cons. apply IH. Qed.

Lemma drop_split p s :
  (p <= String.length s)%nat ->
  exists pre, s = pre +:+ Str.drop p s /\ String.length pre = p.
Proof.
  revert s. induction p as [|p IH]; intros s Hp.
  - exists "". by destruct s.
  - destruct s as [|c s]; simpl in Hp; [lia|].
    destruct (IH s) as (pre & Hs & Hlen); [lia|].
    exists (String c pre). simpl. rewrite app_cons. by rewrite <- Hs, Hlen.
Qed.

Lemma drop_all p s : (String.length s <= p)%nat -> Str.drop p s = "".
Proof.
  revert s. induction p as [|p IH]; intros [|c s] Hp; simpl in *; try done; try lia.
  apply IH. lia.
Qed.

Lemma drop_S_cons p s c s' :
  Str.drop p s = String c s' ->
  Str.drop (S p) s = s' /\ (S p <= String.length s)%nat.
Proof.
  revert s. induction p as [|p IH]; intros [|a s] H; simpl in *; simplify_eq.
  - split; [by destruct s'|lia].
  - apply IH in H as [H1 H2]. split; [done|lia].
Qed.

(** ** Matching at a position *)

Lemma take_digits_Some n s g rest :
  Re.take_digits n s = Some (g, rest) ->
  s = g +:+ rest /\ String.length g = n /\ Str.all_digits g = true.
Proof.
  revert s g rest. induction n as [|n IH]; intros s g rest H; simpl in H.
  - by simplify_eq.
  - destruct s as [|c s]; [done|].
    destruct (Str.is_digit c) eqn:Hc; [|done].
    destruct (Re.take_digits n s) as [[g' rest']|] eqn:Ht; [|done].
    simplify_eq. apply IH in Ht as (-> & <- & Hd).
    rewrite app_cons. simpl. by rewrite Hc, Hd.
Qed.

Lemma take_digits_app g rest :
  Str.all_digits g = true ->
  Re.take_digits (String.length g) (g +:+ rest) = Some (g, rest).
Proof.
  induction g as [|c g IH]; intros Hd; [done|].
  simpl in Hd. apply andb_true_iff in Hd as [Hc Hd].
  rewrite app_cons. simpl. by rewrite Hc, IH.
Qed.

Lemma match_here_shape re s gs :
  Re.match_here re s = Some gs ->
  exists body rest, s = body +:+ rest /\ Spec.shape re body gs.
Proof.
  revert s gs. induction re as [|[n|c] re IH]; intros s gs H; simpl in H.
  - simplify_eq. exists "", s. split; [done|constructor].
  - destruct (Re.take_digits n s) as [[g rest]|] eqn:Ht; [|done].
    destruct (Re.match_here re rest) as [gs'|] eqn:Hm; [|done].
    simplify_eq. apply take_digits_Some in Ht as (-> & Hlen & Hd).
    apply IH in Hm as (body & rest' & -> & Hs).
    exists (g +:+ body), rest'. rewrite str_app_assoc. split; [done|].
    by constructor.
  - destruct s as [|c' s]; [done|]. case_decide; [|done]. subst c'.
    apply IH in H as (body & rest & -> & Hs).
    exists (String c body), rest. split; [done|]. by constructor.
Qed.

Lemma shape_match_here re body gs rest :
  Spec.shape re body gs -> Re.match_here re (body +:+ rest) = Some gs.
Proof.
  induction 1 as [|n re g body gs Hlen Hd Hs IH|c re body gs Hs IH].
  - done.
  - rewrite str_app_assoc. subst n. simpl. by rewrite take_digits_app, IH.
  - rewrite app_cons. simpl. by rewrite decide_True, IH.
Qed.

Lemma width_cons a re : Re.width (a :: re) = (Re.atom_width a + Re.width re)%nat.
Proof. reflexivity. Qed.

Lemma shape_length re body gs :
  Spec.shape re body gs -> String.length body = Re.width re.
Proof.
  induction 1 as [|n re g body gs Hlen Hd Hs IH|c re body gs Hs IH].
  - done.
  - rewrite length_str_app, width_cons, IH, Hlen. done.
  - rewrite width_cons. simpl. by rewrite IH.
Qed.

Lemma occurs_drop re s p gs :
  Spec.occurs re s p gs <->
  (p <= String.length s)%nat /\ Re.match_here re (Str.drop p s) = Some gs.
Proof.
  split.
  - intros (pre & body & post & -> & <- & Hs). split.
    + rewrite length_str_app. lia.
    + rewrite drop_app_length. by apply shape_match_here.
  - intros [Hp Hm]. apply match_here_shape in Hm as (body & rest & Hd & Hs).
    destruct (drop_split p s Hp) as (pre & Hsp & Hlen).
    exists pre, body, rest. by rewrite <- Hd.
Qed.

Lemma occurs_functional re s p gs gs' :
  Spec.occurs re s p gs -> Spec.occurs re s p gs' -> gs = gs'.
Proof. rewrite !occurs_drop. intros [_ H1] [_ H2]. congruence. Qed.

Lemma no_match_at_end re gs :
  (0 < Re.width re)%nat -> Re.match_here re "" <> Some gs.
Proof.
  intros Hw H. apply match_here_shape in H as (body & rest & Hs & Hsh).
  apply shape_length in Hsh. destruct body; simpl in *; [lia|done].
Qed.

(** ** The scan of [finditer] finds the non-overlapping occurrences *)

Section Scan.

Variable re : Re.regex.
Hypothesis width_pos : (0 < Re.width re)%nat.

Lemma occurrences_step s from ms :
  (forall gs, ~ Spec.occurs re s from gs) ->
  Spec.occurrences re s (S from) ms ->
  Spec.occurrences re s from ms.
Proof.
  intros Hno Hocc.
  assert (Hfrom : forall q gs, (from <= q)%nat -> (q < S from)%nat -> ~ Spec.occurs re s q gs).
  { intros q gs H1 H2. replace q with from by lia. apply Hno. }
  inversion Hocc as [? Hnone|? p gs ms' Hle Hp Hmin Hrest]; subst.
  - apply Spec.occ_done. intros p gs Hle.
    destruct (decide (p = from)) as [->|]; [apply Hno|apply Hnone; lia].
  - apply Spec.occ_next; [lia|done| |done].
    intros q gs' [H1 H2].
    destruct (decide (q = from)) as [->|]; [apply Hno|apply Hmin; lia].
Qed.

Lemma scan_occurrences s0 s pos skip :
  Str.drop pos s0 = s ->
  (pos <= String.length s0)%nat ->
  Spec.occurrences re s0 (pos + skip) (Re.scan re s pos skip).
Proof.
  revert pos skip. induction s as [|c s IH]; intros pos skip Hdrop Hpos.
  - apply Spec.occ_done. intros p gs Hp [Hle Hm]%occurs_drop.
    rewrite drop_all in Hm.
    + by apply no_match_at_end in Hm.
    + destruct (decide (String.length s0 <= pos)%nat); [lia|].
      destruct (drop_split pos s0) as (pre & Hs & Hlen); [lia|].
      rewrite Hdrop, app_empty_r in Hs. subst pre. lia.
  - apply drop_S_cons in Hdrop as Hnext. destruct Hnext as [Hnext Hlen].
    destruct skip as [|k]; simpl.
    + destruct (Re.match_here re (String c s)) as [gs|] eqn:Hm.
      * apply Spec.occ_next.
        -- lia.
        -- apply occurs_drop. split; [lia|]. by rewrite Hdrop.
        -- intros q gs' ?. lia.
        -- replace (pos + Re.width re)%nat with (S pos + (Re.width re - 1))%nat by lia.
           by apply IH.
      * rewrite Nat.add_0_r. apply occurrences_step.
        -- intros gs [_ Hm']%occurs_drop. congruence.
        -- replace (S pos) with (S pos + 0)%nat at 1 by lia. by apply IH.
    + replace (pos + S k)%nat with (S pos + k)%nat by lia. by apply IH.
Qed.

Lemma finditer_occurrences s : Spec.occurrences re s 0 (Re.finditer re s).
Proof. by apply (scan_occurrences s s 0 0); [|lia]. Qed.

Lemma occurrences_unique s from ms1 ms2 :
  Spec.occurrences re s from ms1 ->
  Spec.occurrences re s from ms2 ->
  ms1 = ms2.
Proof.
  intros H1. revert ms2.
  induction H1 as [from Hnone|from p gs ms Hle Hp Hmin Hrest IH]; intros ms2 H2.
  - inversion H2 as [|? p gs ms Hle Hp]; subst; [done|].
    by destruct (Hnone p gs).
  - inversion H2 as [? Hnone|? p' gs' ms' Hle' Hp' Hmin' Hrest']; subst.
    + by destruct (Hnone p gs).
    + assert (p = p') as <-.
      { destruct (decide (p < p')%nat); [by destruct (Hmin' p gs)|].
        destruct (decide (p' < p)%nat); [by destruct (Hmin p' gs')|]. lia. }
      rewrite (occurs_functional _ _ _ _ _ Hp Hp'). f_equal. by apply IH.
Qed.

Lemma occurrences_finditer s ms :
  Spec.occurrences re s 0 ms <-> ms = Re.finditer re s.
Proof.
  split.
  - intros H. eapply occurrences_unique; [done|]. apply finditer_occurrences.
  - intros ->. apply finditer_occurrences.
Qed.

End Scan.

(** ** From digit groups to dates *)

Lemma int_acc_decimal s acc :
  Str.all_digits s = true ->
  Str.int_acc acc s = Ok (acc * 10 ^ Z.of_nat (String.length s) + Spec.decimal s).
Proof.
  revert acc. induction s as [|c s IH]; intros acc Hd; simpl in *.
  - f_equal. lia.
  - apply andb_true_iff in Hd as [Hc Hd]. rewrite Hc, IH by done. f_equal.
    rewrite Nat2Z.inj_succ, Z.pow_succ_r by lia. lia.
Qed.

Lemma int_decimal s :
  Str.all_digits s = true -> s <> "" -> Str.int s = Ok (Spec.decimal s).
Proof.
  intros Hd Hne. destruct s as [|c s]; [done|].
  unfold Str.int. rewrite int_acc_decimal by done. f_equal.
Qed.

Lemma shape_digits_inv n re s gs :
  Spec.shape (Re.Digits n :: re) s gs ->
  exists g body gs', s = g +:+ body /\ gs = g :: gs' /\ String.length g = n /\
    Str.all_digits g = true /\ Spec.shape re body gs'.
Proof. inversion 1; subst. eauto 10. Qed.

Lemma shape_lit_inv c re s gs :
  Spec.shape (Re.Lit c :: re) s gs ->
  exists body, s = String c body /\ Spec.shape re body gs.
Proof. inversion 1; subst. eauto. Qed.

Lemma shape_nil_inv s gs : Spec.shape [] s gs -> s = "" /\ gs = [].
Proof. by inversion 1. Qed.

Lemma nonempty_of_length g n : String.length g = S n -> g <> "".
Proof. by destruct g. Qed.

Lemma hyphenated_groups body gs : Spec.shape hyphenated body gs -> date_groups gs.
Proof.
  intros H.
  apply shape_digits_inv in H as (y & b1 & gs1 & -> & -> & Hy & Hyd & H).
  apply shape_lit_inv in H as (b2 & -> & H).
  apply shape_digits_inv in H as (m & b3 & gs2 & -> & -> & Hm & Hmd & H).
  apply shape_lit_inv in H as (b4 & -> & H).
  apply shape_digits_inv in H as (d & b5 & gs3 & -> & -> & Hd & Hdd & H).
  apply shape_nil_inv in H as [-> ->].
  exists y, m, d. split; [done|].
  repeat constructor; eauto using nonempty_of_length.
Qed.

Lemma compact_groups body gs : Spec.shape compact body gs -> date_groups gs.
Proof.
  intros H.
  apply shape_digits_inv in H as (y & b1 & gs1 & -> & -> & Hy & Hyd & H).
  apply shape_digits_inv in H as (m & b3 & gs2 & -> & -> & Hm & Hmd & H).
  apply shape_digits_inv in H as (d & b5 & gs3 & -> & -> & Hd & Hdd & H).
  apply shape_nil_inv in H as [-> ->].
  exists y, m, d. split; [done|].
  repeat constructor; eauto using nonempty_of_length.
Qed.

Lemma date_of_groups_calendar gs :
  date_groups gs -> date_of_groups gs = Ok (Spec.calendar_value gs).
Proof.
  intros (y & m & d & -> & Hall).
  apply Forall_cons in Hall as [[Hy Hy'] Hall].
  apply Forall_cons in Hall as [[Hm Hm'] Hall].
  apply Forall_cons in Hall as [[Hd Hd'] _].
  unfold date_of_groups. simpl. rewrite !int_decimal by done. simpl.
  unfold Date.new, Date.valid. simpl.
  destruct (Date.check_date_fields _ _ _) eqn:Hc.
  - by rewrite decide_True.
  - by rewrite decide_False.
Qed.

Lemma calendar_value_valid gs d : Spec.calendar_value gs = Some d -> Date.valid d.
Proof.
  unfold Spec.calendar_value. intros H.
  repeat (destruct gs as [|? gs]; try done).
  case_decide; by simplify_eq.
Qed.

Lemma occurrences_elem re s from ms m :
  Spec.occurrences re s from ms -> m ∈ ms ->
  Spec.occurs re s (Re.m_start m) (Re.m_groups m).
Proof.
  induction 1 as [|from p gs ms Hle Hp Hmin Hrest IH]; intros Hin.
  - by apply elem_of_nil in Hin.
  - apply elem_of_cons in Hin as [->|Hin]; [done|by apply IH].
Qed.

Lemma date_pattern_width re : date_pattern re -> (0 < Re.width re)%nat.
Proof. intros [-> | ->]; vm_compute; lia. Qed.

Lemma date_pattern_groups re s p gs :
  date_pattern re -> Spec.occurs re s p gs -> date_groups gs.
Proof.
  intros [-> | ->] (pre & body & post & _ & _ & Hs).
  - by eapply hyphenated_groups.
  - by eapply compact_groups.
Qed.

Lemma finditer_groups re s m :
  date_pattern re -> m ∈ Re.finditer re s -> date_groups (Re.m_groups m).
Proof.
  intros Hre Hin. eapply date_pattern_groups; [done|].
  eapply occurrences_elem; [|done].
  by apply finditer_occurrences, date_pattern_width.
Qed.

Lemma last_elem_of {A} (l : list A) x : last l = Some x -> x ∈ l.
Proof. intros (l' & ->)%last_Some. set_solver. Qed.

(** What the loop over [DATE_PATTERNS] computes, in terms of [finditer]. *)
Lemma extract_unfold filename :
  extract_date_from_filename filename =
    match last (Re.finditer hyphenated filename) with
    | Some m => Ok (Spec.calendar_value (Re.m_groups m))
    | None =>
        match last (Re.finditer compact filename) with
        | Some m => Ok (Spec.calendar_value (Re.m_groups m))
        | None => Ok None
        end
    end.
Proof.
  unfold extract_date_from_filename, DATE_PATTERNS. simpl.
  destruct (last (Re.finditer hyphenated filename)) as [m|] eqn:Hh.
  - apply date_of_groups_calendar. eapply finditer_groups; [by left|].
    by apply last_elem_of.
  - destruct (last (Re.finditer compact filename)) as [m|] eqn:Hc; [|done].
    apply date_of_groups_calendar. eapply finditer_groups; [by right|].
    by apply last_elem_of.
Qed.

Lemma chosen_finditer filename m :
  Spec.chosen filename m <->
  last (Re.finditer hyphenated filename) = Some m \/
  (Re.finditer hyphenated filename = [] /\ last (Re.finditer compact filename) = Some m).
Proof.
  unfold Spec.chosen.
  setoid_rewrite (occurrences_finditer hyphenated (date_pattern_width _ (or_introl eq_refl))).
  setoid_rewrite (occurrences_finditer compact (date_pattern_width _ (or_intror eq_refl))).
  rewrite !last_Some. split.
  - intros [[ms H]|[H [ms H']]];
      [left; by exists ms|right; split; [done|by exists ms]].
  - intros [[ms H]|[H [ms H']]];
      [left; by exists ms|right; split; [done|by exists ms]].
Qed.

Lemma extract_chosen filename m :
  Spec.chosen filename m ->
  extract_date_from_filename filename = Ok (Spec.calendar_value (Re.m_groups m)).
Proof.
  rewrite chosen_finditer, extract_unfold. intros [-> | [-> ->]]; done.
Qed.

Lemma extract_total filename :
  exists r, extract_date_from_filename filename = Ok r /\
    forall d, r = Some d -> Date.valid d.
Proof.
  rewrite extract_unfold.
  destruct (last (Re.finditer hyphenated filename)) as [m|];
    [|destruct (last (Re.finditer compact filename)) as [m|]];
    eexists; (split; [done|]); intros d Hd;
    [by eapply calendar_value_valid..|done].
Qed.

(** ** Ordinals of dates grow with the dates *)

Lemma valid_fields d :
  Date.valid d ->
  1 <= Date.year d <= 9999 /\ 1 <= Date.month d <= 12 /\
  1 <= Date.day d <= Date.days_in_month (Date.year d) (Date.month d).
Proof.
  unfold Date.valid, Date.check_date_fields, Date.MINYEAR, Date.MAXYEAR.
  rewrite !andb_true_iff, !Z.leb_le. lia.
Qed.

Lemma month_cases m :
  1 <= m <= 12 ->
  m = 1 \/ m = 2 \/ m = 3 \/ m = 4 \/ m = 5 \/ m = 6 \/
  m = 7 \/ m = 8 \/ m = 9 \/ m = 10 \/ m = 11 \/ m = 12.
Proof. lia. Qed.

Ltac each_month H :=
  apply month_cases in H;
  repeat (destruct H as [H|H]); subst.

Lemma days_before_year_succ y :
  Date.days_before_year (y + 1) =
  Date.days_before_year y + 365 + (if Date.is_leap y then 1 else 0).
Proof.
  unfold Date.days_before_year, Date.is_leap.
  replace (y + 1 - 1) with y by lia.
  destruct (y mod 4 =? 0) eqn:H4; destruct (y mod 100 =? 0) eqn:H100;
    destruct (y mod 400 =? 0) eqn:H400; simpl;
    rewrite ?Z.eqb_eq, ?Z.eqb_neq in *;
    Z.div_mod_to_equations; lia.
Qed.

Lemma days_before_year_mono y y' :
  y <= y' -> Date.days_before_year y <= Date.days_before_year y'.
Proof.
  intros Hle. replace y' with (y + Z.of_nat (Z.to_nat (y' - y))) by lia.
  induction (Z.to_nat (y' - y)) as [|k IH].
  - replace (y + Z.of_nat 0) with y by lia. lia.
  - replace (y + Z.of_nat (S k)) with (y + Z.of_nat k + 1) by lia.
    rewrite days_before_year_succ. destruct (Date.is_leap _); lia.
Qed.

Lemma day_of_year_bound y m d :
  1 <= m <= 12 -> 1 <= d <= Date.days_in_month y m ->
  1 <= Date.days_before_month y m + d <= 365 + (if Date.is_leap y then 1 else 0).
Proof.
  intros Hm. unfold Date.days_before_month, Date.days_in_month.
  each_month Hm; destruct (Date.is_leap y); simpl; lia.
Qed.

Lemma day_of_year_mono y m d m' d' :
  1 <= m <= 12 -> 1 <= m' <= 12 ->
  1 <= d <= Date.days_in_month y m -> 1 <= d' ->
  m < m' ->
  Date.days_before_month y m + d < Date.days_before_month y m' + d'.
Proof.
  intros Hm Hm'. unfold Date.days_before_month, Date.days_in_month.
  each_month Hm; each_month Hm'; destruct (Date.is_leap y); simpl; lia.
Qed.

Lemma toordinal_mono a b :
  Date.valid a -> Date.valid b -> Date.lt a b ->
  Date.toordinal a < Date.toordinal b.
Proof.
  intros (Hya & Hma & Hda)%valid_fields (Hyb & Hmb & Hdb)%valid_fields.
  unfold Date.lt, Date.toordinal.
  destruct a as [ya ma da], b as [yb mb db]; simpl in *.
  intros [Hy|[-> [Hm|[-> Hd]]]].
  - pose proof (day_of_year_bound ya ma da Hma Hda).
    pose proof (day_of_year_bound yb mb db Hmb Hdb).
    pose proof (days_before_year_succ ya).
    pose proof (days_before_year_mono (ya + 1) yb ltac:(lia)).
    lia.
  - pose proof (day_of_year_mono yb ma da mb db Hma Hmb Hda ltac:(lia) Hm). lia.
  - lia.
Qed.

(** ** The skip filter *)

Lemma startswith_prefix s p :
  Str.startswith s p = true <-> exists post, s = p +:+ post.
Proof.
  revert s. induction p as [|a p IH]; intros s.
  - split; [intros _; by exists s|by destruct s].
  - destruct s as [|b s]; simpl.
    + split; [done|by intros [post ?]].
    + case_decide as Hab.
      * subst b. rewrite IH. split; intros [post Hs]; exists post.
        -- by rewrite app_cons, Hs.
        -- rewrite app_cons in Hs. by simplify_eq.
      * split; [done|]. intros [post Hs]. rewrite app_cons in Hs. by simplify_eq.
Qed.

Lemma contains_empty p : Str.contains "" p = Str.startswith "" p || false.
Proof. reflexivity. Qed.

Lemma contains_cons c s p :
  Str.contains (String c s) p = Str.startswith (String c s) p || Str.contains s p.
Proof. reflexivity. Qed.

Lemma contains_substring s p :
  Str.contains s p = true <-> Spec.substring p s.
Proof.
  unfold Spec.substring. induction s as [|c s IH].
  - rewrite contains_empty, orb_false_r, startswith_prefix. split.
    + intros [post Hs]. by exists "", post.
    + intros ([|? pre] & post & Hs); [by exists post|done].
  - rewrite contains_cons, orb_true_iff, startswith_prefix, IH. split.
    + intros [[post Hs]|(pre & post & Hs)].
      * by exists "", post.
      * exists (String c pre), post. by rewrite app_cons, Hs.
    + intros ([|a pre] & post & Hs).
      * left. by exists post.
      * right. rewrite app_cons in Hs. simplify_eq. by exists pre, post.
Qed.

Lemma should_skip_protected path skip_tokens :
  should_skip path skip_tokens = true <-> Spec.protected path skip_tokens.
Proof.
  unfold should_skip, Spec.protected. rewrite existsb_exists.
  setoid_rewrite contains_substring. setoid_rewrite <- list_elem_of_In. done.
Qed.

(** ** The candidate scan *)

Lemma candidate_yields tree extensions skip_tokens file_path :
  candidate tree extensions skip_tokens file_path
  = Ok (yields tree extensions skip_tokens file_path).
Proof.
  unfold yields, candidate.
  destruct (negb (is_file tree file_path)); [done|].
  destruct (negb (bool_decide _)); [done|].
  destruct (should_skip file_path skip_tokens); [done|].
  destruct (extract_total (PathOps.name file_path)) as (r & -> & _).
  by destruct r.
Qed.

Lemma yields_Some tree extensions skip_tokens file_path c :
  yields tree extensions skip_tokens file_path = Some c ->
  c.1 = file_path /\
  tree !! file_path = Some File /\
  Str.lower (PathOps.suffix file_path) ∈ extensions /\
  should_skip file_path skip_tokens = false /\
  extract_date_from_filename (PathOps.name file_path) = Ok (Some c.2) /\
  Date.valid c.2.
Proof.
  unfold yields, candidate, is_file.
  case_bool_decide as Hf; simpl; [|done].
  case_bool_decide as He; simpl; [|done].
  destruct (should_skip file_path skip_tokens); [done|].
  destruct (extract_total (PathOps.name file_path)) as (r & Hr & Hv).
  rewrite Hr. simpl. destruct r as [d|]; [|done].
  intros [= <-]. simpl. eauto 10.
Qed.

Lemma yields_local tree tree' extensions skip_tokens file_path :
  tree !! file_path = tree' !! file_path ->
  yields tree extensions skip_tokens file_path
  = yields tree' extensions skip_tokens file_path.
Proof. intros H. unfold yields, candidate, is_file. by rewrite H. Qed.

Lemma candidates_of_yields tree extensions skip_tokens entries :
  candidates_of tree extensions skip_tokens entries
  = Ok (omap (yields tree extensions skip_tokens) entries).
Proof.
  induction entries as [|p entries IH]; [done|].
  simpl. rewrite candidate_yields, IH. simpl.
  by destruct (yields tree extensions skip_tokens p).
Qed.

Lemma NoDup_rglob root tree : NoDup (rglob root tree).
Proof. apply NoDup_filter, NoDup_fst_map_to_list. Qed.

Lemma elem_of_rglob root tree p :
  p ∈ rglob root tree <-> PathOps.below root p /\ is_Some (tree !! p).
Proof.
  unfold rglob. rewrite list_elem_of_filter, list_elem_of_fmap. split.
  - intros [Hb ([q x] & -> & Hin%elem_of_map_to_list)]. eauto.
  - intros [Hb [x Hx]]. split; [done|]. exists (p, x). by rewrite elem_of_map_to_list.
Qed.

(** Membership in the candidates of an unchanging tree. *)
Lemma elem_of_gathered root extensions skip_tokens tree c :
  c ∈ omap (yields tree extensions skip_tokens) (rglob root tree) <->
  PathOps.below root c.1 /\ yields tree extensions skip_tokens c.1 = Some c.
Proof.
  rewrite list_elem_of_omap. split.
  - intros (p & Hp & Hy). apply yields_Some in Hy as Hc. destruct Hc as [<- _].
    apply elem_of_rglob in Hp as [? _]. done.
  - intros [Hb Hy]. exists c.1. split; [|done].
    apply elem_of_rglob. split; [done|].
    apply yields_Some in Hy as (_ & -> & _). done.
Qed.

(** ** The loop of [cleanup] *)

Lemma lookup_remove_all paths tree p :
  remove_all paths tree !! p = if decide (p ∈ paths) then None else tree !! p.
Proof.
  revert tree. induction paths as [|q paths IH]; intros tree.
  - case_decide as Hin; [by apply elem_of_nil in Hin|done].
  - change (remove_all (q :: paths) tree) with (remove_all paths (delete q tree)).
    rewrite IH. destruct (decide (p = q)) as [->|Hne].
    + rewrite lookup_delete_eq. rewrite (decide_True (P := q ∈ q :: paths)) by (by left).
      by case_decide.
    + rewrite lookup_delete_ne by done.
      destruct (decide (p ∈ paths)) as [Hin|Hin].
      * rewrite decide_True; [done|]. by right.
      * rewrite decide_False; [done|]. rewrite elem_of_cons. tauto.
Qed.

Lemma cleanup_body_run today keep_days dry_run path file_date n paths w :
  fs w !! path = Some File ->
  cleanup_body today keep_days dry_run (path, file_date) (n, paths) w =
    if decide (condemned today keep_days (path, file_date))
    then (Ok (n + 1, paths ++ [path]),
          mkWorld (if dry_run then fs w else delete path (fs w)) (clock w)
            (stdout w ++ [delete_line path file_date (Date.sub_days today file_date)]))
    else (Ok (n, paths), w).
Proof.
  intros Hfile. unfold cleanup_body, condemned. simpl.
  destruct (Date.sub_days today file_date >? keep_days) eqn:Hage.
  - rewrite decide_True by (by apply Z.gtb_lt).
    destruct dry_run; unfold bind, print, unlink, ret; simpl; [done|].
    by rewrite Hfile.
  - rewrite decide_False; [done|].
    intros ?%Z.gtb_lt. congruence.
Qed.

Lemma cleanup_loop_run tree0 today keep_days dry_run extensions skip_tokens entries :
  NoDup entries ->
  forall n paths w,
    (forall p, p ∈ entries -> fs w !! p = tree0 !! p) ->
    let del := filter (condemned today keep_days)
                 (omap (yields tree0 extensions skip_tokens) entries) in
    cleanup_loop today keep_days dry_run extensions skip_tokens entries (n, paths) w =
      (Ok (n + Z.of_nat (length del), paths ++ del.*1),
       mkWorld (if dry_run then fs w else remove_all del.*1 (fs w)) (clock w)
         (stdout w ++ deletion_lines today del)).
Proof.
  induction 1 as [|p rest Hnotin Hnodup IH]; intros n paths w Hsame del.
  - subst del. simpl. unfold ret. rewrite Z.add_0_r, !app_nil_r.
    destruct w, dry_run; done.
  - simpl. unfold bind at 1, lift. rewrite candidate_yields.
    rewrite (yields_local (fs w) tree0) by (apply Hsame; by left).
    subst del. simpl.
    destruct (yields tree0 extensions skip_tokens p) as [[path file_date]|] eqn:Hy.
    + apply yields_Some in Hy as Hc. simpl in Hc. destruct Hc as (-> & Hfile & _).
      unfold bind at 1. rewrite cleanup_body_run by (by rewrite Hsame; [|left]).
      rewrite filter_cons. destruct (decide (condemned today keep_days (p, file_date))).
      * set (del' := filter (condemned today keep_days)
                       (omap (yields tree0 extensions skip_tokens) rest)).
        rewrite IH.
        -- fold del'. simpl. f_equal.
           ++ rewrite Nat2Z.inj_succ, <- app_assoc. simpl.
              by replace (n + 1 + Z.of_nat (length del')) with
                (n + Z.succ (Z.of_nat (length del'))) by lia.
           ++ rewrite <- app_assoc. by destruct dry_run.
        -- intros q Hq. simpl. rewrite <- Hsame by (by right).
           destruct dry_run; [done|]. apply lookup_delete_ne. by intros ->.
      * rewrite IH; [done|]. intros q Hq. apply Hsame. by right.
    + unfold bind at 1, ret. rewrite IH; [done|].
      intros q Hq. apply Hsame. by right.
Qed.

(** What a run of [cleanup] returns and how it leaves the world. *)
Lemma cleanup_run root keep_days extensions skip_tokens dry_run w :
  let del := doomed (clock w) keep_days root extensions skip_tokens (fs w) in
  cleanup root keep_days extensions skip_tokens dry_run w =
    (Ok (Z.of_nat (length del), del.*1),
     mkWorld (if dry_run then fs w else remove_all del.*1 (fs w)) (clock w)
       (stdout w ++ deletion_lines (clock w) del
          ++ [summary_line root (Z.of_nat (length del)) dry_run])).
Proof.
  intros del. unfold cleanup, bind at 1, today_date. unfold bind at 1.
  unfold bind at 1.
  rewrite (cleanup_loop_run (fs w)) by (done || apply NoDup_rglob).
  unfold bind, print, ret. simpl. fold del. by rewrite <- app_assoc.
Qed.

Lemma gather_candidates_yields root extensions skip_tokens tree :
  gather_candidates root extensions skip_tokens tree
  = Ok (omap (yields tree extensions skip_tokens) (rglob root tree)).
Proof. apply candidates_of_yields. Qed.

Lemma elem_of_doomed_paths today keep_days root extensions skip_tokens tree p d :
  (p, d) ∈ omap (yields tree extensions skip_tokens) (rglob root tree) ->
  p ∈ (doomed today keep_days root extensions skip_tokens tree).*1
  <-> keep_days < Date.sub_days today d.
Proof.
  intros Hin. unfold doomed. rewrite list_elem_of_fmap. split.
  - intros (c & -> & [Hc Hin']%list_elem_of_filter).
    apply elem_of_gathered in Hin as [_ Hy], Hin' as [_ Hy'].
    simpl in Hy. rewrite Hy in Hy'. injection Hy' as Hc'.
    rewrite <- Hc' in Hc. exact Hc.
  - intros Hage. exists (p, d). split; [done|].
    by apply list_elem_of_filter.
Qed.

Lemma doomed_paths_gathered today keep_days root extensions skip_tokens tree p :
  p ∈ (doomed today keep_days root extensions skip_tokens tree).*1 ->
  p ∈ (omap (yields tree extensions skip_tokens) (rglob root tree)).*1.
Proof.
  unfold doomed. rewrite !list_elem_of_fmap.
  intros (c & -> & [_ Hin]%list_elem_of_filter). by exists c.
Qed.

Lemma protected_not_gathered root extensions skip_tokens tree p :
  Spec.protected p skip_tokens ->
  p ∉ (omap (yields tree extensions skip_tokens) (rglob root tree)).*1.
Proof.
  intros Hprot%should_skip_protected (c & -> & Hin)%list_elem_of_fmap.
  apply elem_of_gathered in Hin as [_ Hy].
  apply yields_Some in Hy as (_ & _ & _ & Hskip & _). congruence.
Qed.

(** ** The command line and [main] *)

Lemma run_actions_skip_tokens argv ns ns' :
  run_actions ns argv = Ok ns' ->
  ns_skip_tokens ns' = ns_skip_tokens ns ++ Spec.skip_token_values argv.
Proof.
  revert ns. induction argv as [|a argv IH]; intros ns H; simpl in H.
  - simplify_eq. by rewrite app_nil_r.
  - destruct (run_action ns a) as [ns1|] eqn:Ha; simpl in H; [|done].
    rewrite (IH _ H).
    destruct a as [| |[|]| |]; simpl in Ha; simplify_eq; simpl; try done.
    by rewrite <- app_assoc.
Qed.

Lemma parse_args_skip_tokens argv args :
  parse_args argv = Ok args ->
  ns_skip_tokens args = "latest" :: Spec.skip_token_values argv.
Proof.
  unfold parse_args. destruct (run_actions defaults argv) as [ns|] eqn:Hr; [|done].
  simpl. destruct (ns_path ns); [|done]. intros [= <-].
  by rewrite (run_actions_skip_tokens _ _ _ Hr).
Qed.

Lemma main_run argv args target w :
  parse_args argv = Ok args ->
  ns_path args = Some target ->
  is_Some (fs w !! target) ->
  main argv w =
    (let* _ := cleanup target (Z.max (ns_days args) 0)
                 (normalize_extensions (ns_extensions args))
                 (ns_skip_tokens args) (ns_dry_run args) in
     ret tt) w.
Proof.
  intros Hargs Hpath Hex. unfold main, bind at 1, lift. rewrite Hargs, Hpath. simpl.
  unfold bind at 1, path_exists. by rewrite bool_decide_true.
Qed.

(** ** Sample runs *)

Example extract_compact :
  extract_date_from_filename "report_20250101.json" = Ok (Some (Date.mkDate 2025 1 1)).
Proof. reflexivity. Qed.

Example extract_hyphenated_first :
  extract_date_from_filename "picks_20250907_report-2025-11-07.html"
  = Ok (Some (Date.mkDate 2025 11 7)).
Proof. reflexivity. Qed.

Example extract_leap_day :
  extract_date_from_filename "a_20240229.json" = Ok (Some (Date.mkDate 2024 2 29)) /\
  extract_date_from_filename "a_20250229.json" = Ok None.
Proof. split; reflexivity. Qed.

(** The scan resumes after each match, so an occurrence that overlaps an
    earlier match is not among the non-overlapping ones, even when it
    lies further right. *)
Example overlapping_occurrence_passed_over :
  Spec.occurs hyphenated "2025-01-0120-12-25" 8 ["0120"; "12"; "25"] /\
  Re.finditer hyphenated "2025-01-0120-12-25" = [Re.mkMatch 0 ["2025"; "01"; "01"]] /\
  extract_date_from_filename "2025-01-0120-12-25" = Ok (Some (Date.mkDate 2025 1 1)).
Proof.
  split; [|split; reflexivity].
  apply occurs_drop. split; [simpl; lia|reflexivity].
Qed.

Example suffix_samples :
  PathOps.suffix ["cache"; "Report-2025-01-01.JSON"] = ".JSON" /\
  PathOps.suffix [".bashrc"] = "" /\
  PathOps.suffix ["a.b.c"] = ".c" /\
  PathOps.suffix ["abc."] = "".
Proof. repeat split; reflexivity. Qed.

Example run_on_example_world :
  (main [ArgPath ["cache"]; ArgDays 0] example_world).1 = Ok tt /\
  stdout (main [ArgPath ["cache"]; ArgDays 0] example_world).2 =
    [ "[CLEANUP] cache/picks_2025-01-09.json -> dated 2025-01-09 (1 days old)";
      "[CLEANUP] cache/report_20250101.json -> dated 2025-01-01 (9 days old)";
      "[CLEANUP] Completed scanning cache. Removed 2 file(s). Dry-run: no." ] /\
  map_to_list (fs (main [ArgPath ["cache"]; ArgDays 0] example_world).2) =
    [ (["cache"; "plan_20250201.json"], File);
      (["cache"; "data_latest_20250101.json"], File);
      (["cache"], Dir) ].
Proof. split; [|split]; vm_compute; reflexivity. Qed.

(** * The claims *)

(** C1. The extraction tries the hyphenated shape first and the compact
    shape second; whenever a shape has non-overlapping occurrences in the
    filename, the result is the calendar value of the last occurrence of
    the first shape that occurs. *)
Theorem extract_date_last_occurrence filename m :
  Spec.chosen filename m ->
  extract_date_from_filename filename = Ok (Spec.calendar_value (Re.m_groups m)).
Proof. apply extract_chosen. Qed.

Lemma extract_date_last_occurrence_witness :
  Spec.chosen "picks_20240101_2025-11-07_2025-12-24_20250907.json"
    (Re.mkMatch 26 ["2025"; "12"; "24"]) /\
  extract_date_from_filename "picks_20240101_2025-11-07_2025-12-24_20250907.json"
  = Ok (Some (Date.mkDate 2025 12 24)).
Proof.
  assert (H : Spec.chosen "picks_20240101_2025-11-07_2025-12-24_20250907.json"
                (Re.mkMatch 26 ["2025"; "12"; "24"])).
  { apply chosen_finditer. left. reflexivity. }
  split; [exact H|].
  exact (extract_date_last_occurrence _ _ H).
Defined.

(** C2. When the last occurrence of the first shape that occurs is not a
    calendar date, the extraction returns no date; the other shape is not
    tried. *)
Theorem extract_date_invalid_stops filename m :
  Spec.chosen filename m ->
  Spec.calendar_value (Re.m_groups m) = None ->
  extract_date_from_filename filename = Ok None.
Proof. intros Hm Hinv. by rewrite (extract_chosen _ _ Hm), Hinv. Qed.

Lemma extract_date_invalid_stops_witness :
  (Spec.calendar_value ∘ Re.m_groups <$> last (Re.finditer compact "a_2025-13-01_20250101.json"))
  = Some (Some (Date.mkDate 2025 1 1)) /\
  extract_date_from_filename "a_2025-13-01_20250101.json" = Ok None.
Proof.
  split; [reflexivity|].
  apply (extract_date_invalid_stops _ (Re.mkMatch 2 ["2025"; "13"; "01"])).
  - apply chosen_finditer. left. reflexivity.
  - reflexivity.
Defined.

(** C8. The extraction is total: on every filename it returns, without
    raising, either no date or a date of the calendar. *)
Theorem extract_date_never_raises filename :
  extract_date_from_filename filename = Ok None \/
  exists d, extract_date_from_filename filename = Ok (Some d) /\ Date.valid d.
Proof.
  destruct (extract_total filename) as ([d|] & Hr & Hv); [right|by left].
  exists d. split; [done|]. by apply Hv.
Qed.

(** C3. [cleanup] deletes a candidate exactly when its age in days is
    strictly greater than the retention window; a candidate whose age
    equals the window stays. *)
Theorem cleanup_deletes_strictly_older w root keep_days extensions skip_tokens dry_run
    cands p d :
  gather_candidates root extensions skip_tokens (fs w) = Ok cands ->
  (p, d) ∈ cands ->
  exists n paths w',
    cleanup root keep_days extensions skip_tokens dry_run w = (Ok (n, paths), w') /\
    (keep_days < Date.sub_days (clock w) d ->
       p ∈ paths /\ (dry_run = false -> fs w' !! p = None)) /\
    (Date.sub_days (clock w) d <= keep_days ->
       (p ∉ paths) /\ fs w' !! p = Some File).
Proof.
  rewrite gather_candidates_yields. intros [= <-] Hin.
  eexists _, _, _. split; [apply cleanup_run|].
  pose proof (elem_of_doomed_paths (clock w) keep_days _ _ _ _ _ _ Hin) as Hiff.
  apply elem_of_gathered in Hin as [_ (_ & Hfile & _)%yields_Some].
  simpl in Hfile. split.
  - intros Hage. split; [by apply Hiff|]. intros ->. simpl.
    rewrite lookup_remove_all, decide_True; [done|by apply Hiff].
  - intros Hage. assert (Hout : p ∉ (doomed (clock w) keep_days root extensions
                                       skip_tokens (fs w)).*1).
    { rewrite Hiff. lia. }
    split; [done|]. simpl. destruct dry_run; [done|].
    by rewrite lookup_remove_all, decide_False.
Qed.

Lemma cleanup_deletes_strictly_older_witness :
  Date.sub_days (Date.mkDate 2025 1 10) (Date.mkDate 2025 1 1) = 9 /\
  (exists n paths w',
     cleanup ["cache"] 5 [".json"] ["latest"] false example_world = (Ok (n, paths), w') /\
     ["cache"; "report_20250101.json"] ∈ paths /\
     fs w' !! ["cache"; "report_20250101.json"] = None) /\
  (exists n paths w',
     cleanup ["cache"] 9 [".json"] ["latest"] false example_world = (Ok (n, paths), w') /\
     (["cache"; "report_20250101.json"] ∉ paths) /\
     fs w' !! ["cache"; "report_20250101.json"] = Some File).
Proof.
  assert (Hg : gather_candidates ["cache"] [".json"] ["latest"] (fs example_world)
               = Ok [ (["cache"; "picks_2025-01-09.json"], Date.mkDate 2025 1 9);
                      (["cache"; "plan_20250201.json"], Date.mkDate 2025 2 1);
                      (["cache"; "report_20250101.json"], Date.mkDate 2025 1 1) ]).
  { vm_compute. reflexivity. }
  assert (Hin : (["cache"; "report_20250101.json"], Date.mkDate 2025 1 1)
                ∈ [ (["cache"; "picks_2025-01-09.json"], Date.mkDate 2025 1 9);
                    (["cache"; "plan_20250201.json"], Date.mkDate 2025 2 1);
                    (["cache"; "report_20250101.json"], Date.mkDate 2025 1 1) ]).
  { do 2 apply list_elem_of_further. apply list_elem_of_here. }
  split; [reflexivity|]. split.
  - destruct (cleanup_deletes_strictly_older example_world ["cache"] 5 [".json"]
                ["latest"] false _ _ _ Hg Hin) as (n & paths & w' & Hrun & Hold & _).
    exists n, paths, w'. split; [exact Hrun|].
    destruct Hold as [H1 H2]; [reflexivity|]. split; [exact H1|]. by apply H2.
  - destruct (cleanup_deletes_strictly_older example_world ["cache"] 9 [".json"]
                ["latest"] false _ _ _ Hg Hin) as (n & paths & w' & Hrun & _ & Hkeep).
    exists n, paths, w'. split; [exact Hrun|].
    apply Hkeep. vm_compute. discriminate.
Defined.

(** C4. A dry run removes nothing, and it returns the same count and the
    same paths and prints the same line per file as the real run over the
    same tree; only the summary lines differ, in their dry-run flag. *)
Theorem dry_run_is_a_faithful_preview w root keep_days extensions skip_tokens :
  exists n paths lines w_dry w_real,
    cleanup root keep_days extensions skip_tokens true w = (Ok (n, paths), w_dry) /\
    cleanup root keep_days extensions skip_tokens false w = (Ok (n, paths), w_real) /\
    fs w_dry = fs w /\
    fs w_real = remove_all paths (fs w) /\
    stdout w_dry = stdout w ++ lines ++ [summary_line root n true] /\
    stdout w_real = stdout w ++ lines ++ [summary_line root n false] /\
    n = Z.of_nat (length lines).
Proof.
  eexists _, _, _, _, _.
  split; [apply cleanup_run|]. split; [apply cleanup_run|]. simpl.
  repeat split. unfold deletion_lines. by rewrite length_fmap.
Qed.

(** C9. Unlinking a path that is not there succeeds without a trace, and
    the loop body still counts and logs the candidate as deleted. *)
Theorem delete_missing_file_is_silent today keep_days p d n paths w :
  fs w !! p = None ->
  keep_days < Date.sub_days today d ->
  unlink p true w = (Ok tt, w) /\
  cleanup_body today keep_days false (p, d) (n, paths) w =
    (Ok (n + 1, paths ++ [p]),
     mkWorld (fs w) (clock w)
       (stdout w ++ [delete_line p d (Date.sub_days today d)])).
Proof.
  intros Hmiss Hage. split.
  - unfold unlink. by rewrite Hmiss.
  - unfold cleanup_body. rewrite (proj2 (Z.gtb_lt _ _) Hage).
    unfold bind, print, unlink, ret. simpl. by rewrite Hmiss.
Qed.

Lemma delete_missing_file_is_silent_witness :
  cleanup_body (Date.mkDate 2025 1 10) 5 false
    (["cache"; "gone_20250101.json"], Date.mkDate 2025 1 1) (0, []) example_world =
    (Ok (1, [["cache"; "gone_20250101.json"]]),
     mkWorld (fs example_world) (clock example_world)
       ["[CLEANUP] cache/gone_20250101.json -> dated 2025-01-01 (9 days old)"]).
Proof.
  refine (proj2 (delete_missing_file_is_silent (Date.mkDate 2025 1 10) 5
            ["cache"; "gone_20250101.json"] (Date.mkDate 2025 1 1) 0 [] example_world _ _)).
  - vm_compute. reflexivity.
  - vm_compute. reflexivity.
Defined.

(** C5. [main] runs [cleanup] with window zero when the requested window
    is negative; and under any window that is not negative a candidate
    dated after today has a negative age and is kept. *)
Theorem negative_window_and_future_dates :
  (forall argv args target w,
     parse_args argv = Ok args ->
     ns_path args = Some target ->
     is_Some (fs w !! target) ->
     ns_days args < 0 ->
     main argv w =
       (let* _ := cleanup target 0 (normalize_extensions (ns_extensions args))
                    (ns_skip_tokens args) (ns_dry_run args) in
        ret tt) w) /\
  (forall w root keep_days extensions skip_tokens dry_run cands p d,
     Date.valid (clock w) ->
     gather_candidates root extensions skip_tokens (fs w) = Ok cands ->
     (p, d) ∈ cands ->
     Date.lt (clock w) d ->
     0 <= keep_days ->
     Date.sub_days (clock w) d < 0 /\
     exists n paths w',
       cleanup root keep_days extensions skip_tokens dry_run w = (Ok (n, paths), w') /\
       (p ∉ paths) /\ fs w' !! p = Some File).
Proof.
  split.
  - intros argv args target w Hargs Hpath Hex Hneg.
    rewrite (main_run _ _ _ _ Hargs Hpath Hex).
    by replace (Z.max (ns_days args) 0) with 0 by lia.
  - intros w root keep_days extensions skip_tokens dry_run cands p d
      Htoday Hg Hin Hfuture Hkeep.
    rewrite gather_candidates_yields in Hg. injection Hg as <-.
    pose proof (elem_of_doomed_paths (clock w) keep_days _ _ _ _ _ _ Hin) as Hiff.
    apply elem_of_gathered in Hin as [_ (_ & Hfile & _ & _ & _ & Hvalid)%yields_Some].
    simpl in Hfile, Hvalid.
    assert (Hage : Date.sub_days (clock w) d < 0).
    { pose proof (toordinal_mono _ _ Htoday Hvalid Hfuture). unfold Date.sub_days. lia. }
    split; [done|].
    eexists _, _, _. split; [apply cleanup_run|].
    assert (Hout : p ∉ (doomed (clock w) keep_days root extensions
                          skip_tokens (fs w)).*1).
    { rewrite Hiff. lia. }
    split; [done|]. simpl. destruct dry_run; [done|].
    by rewrite lookup_remove_all, decide_False.
Qed.

Lemma negative_window_and_future_dates_witness :
  main [ArgPath ["cache"]; ArgDays (-3)] example_world =
    (let* _ := cleanup ["cache"] 0 [".json"] ["latest"] false in ret tt) example_world /\
  Date.sub_days (Date.mkDate 2025 1 10) (Date.mkDate 2025 2 1) < 0 /\
  (exists n paths w',
     cleanup ["cache"] 0 [".json"] ["latest"] false example_world = (Ok (n, paths), w') /\
     (["cache"; "plan_20250201.json"] ∉ paths) /\
     fs w' !! ["cache"; "plan_20250201.json"] = Some File).
Proof.
  split.
  - refine (proj1 negative_window_and_future_dates [ArgPath ["cache"]; ArgDays (-3)]
              (mkNamespace (Some ["cache"]) (-3) [".json"] ["latest"] false)
              ["cache"] example_world _ _ _ _).
    + reflexivity.
    + reflexivity.
    + exists Dir. vm_compute. reflexivity.
    + reflexivity.
  - refine (proj2 negative_window_and_future_dates example_world ["cache"] 0 [".json"]
              ["latest"] false
              [ (["cache"; "picks_2025-01-09.json"], Date.mkDate 2025 1 9);
                (["cache"; "plan_20250201.json"], Date.mkDate 2025 2 1);
                (["cache"; "report_20250101.json"], Date.mkDate 2025 1 1) ]
              ["cache"; "plan_20250201.json"] (Date.mkDate 2025 2 1) _ _ _ _ _).
    + reflexivity.
    + vm_compute. reflexivity.
    + apply list_elem_of_further, list_elem_of_here.
    + right. split; [reflexivity|]. left. reflexivity.
    + discriminate.
Defined.

(** C6. A file whose lowercased name contains the lowercased form of
    some skip token is not a candidate and is never deleted, whatever its
    date. *)
Theorem skip_token_protects w root keep_days extensions skip_tokens dry_run p :
  Spec.protected p skip_tokens ->
  exists cands n paths w',
    gather_candidates root extensions skip_tokens (fs w) = Ok cands /\
    (p ∉ cands.*1) /\
    cleanup root keep_days extensions skip_tokens dry_run w = (Ok (n, paths), w') /\
    (p ∉ paths) /\
    fs w' !! p = fs w !! p.
Proof.
  intros Hprot. eexists _, _, _, _.
  split; [apply gather_candidates_yields|].
  pose proof (protected_not_gathered root extensions _ (fs w) _ Hprot) as Hout.
  split; [done|]. split; [apply cleanup_run|].
  assert (Hout' : p ∉ (doomed (clock w) keep_days root extensions
                         skip_tokens (fs w)).*1).
  { intros Hin. apply Hout. by apply doomed_paths_gathered in Hin. }
  split; [done|]. simpl. destruct dry_run; [done|].
  by rewrite lookup_remove_all, decide_False.
Qed.

Lemma skip_token_protects_witness :
  Spec.protected ["cache"; "data_latest_20250101.json"] ["latest"] /\
  exists cands n paths w',
    gather_candidates ["cache"] [".json"] ["latest"] (fs example_world) = Ok cands /\
    (["cache"; "data_latest_20250101.json"] ∉ cands.*1) /\
    cleanup ["cache"] 0 [".json"] ["latest"] false example_world = (Ok (n, paths), w') /\
    (["cache"; "data_latest_20250101.json"] ∉ paths) /\
    fs w' !! ["cache"; "data_latest_20250101.json"]
    = fs example_world !! ["cache"; "data_latest_20250101.json"].
Proof.
  split.
  - exists "latest". split; [apply list_elem_of_here|]. by exists "data_", "_20250101.json".
  - apply skip_token_protects.
    exists "latest". split; [apply list_elem_of_here|]. by exists "data_", "_20250101.json".
Defined.

(** C7. When the target directory does not exist, [main] prints one
    informative line and returns normally; the tree is untouched and no
    line of [cleanup] is printed. *)
Theorem main_missing_directory argv args target w :
  parse_args argv = Ok args ->
  ns_path args = Some target ->
  fs w !! target = None ->
  main argv w =
    (Ok tt, mkWorld (fs w) (clock w) (stdout w ++ [missing_line target])).
Proof.
  intros Hargs Hpath Hmiss. unfold main, bind at 1, lift. rewrite Hargs, Hpath. simpl.
  unfold bind at 1, path_exists. rewrite bool_decide_false; [done|].
  rewrite Hmiss. by intros [? ?].
Qed.

Lemma main_missing_directory_witness :
  main [ArgPath ["nowhere"]; ArgDays 0] example_world =
    (Ok tt, mkWorld (fs example_world) (clock example_world)
              ["[CLEANUP] Directory nowhere does not exist. Nothing to do."]).
Proof.
  refine (main_missing_directory [ArgPath ["nowhere"]; ArgDays 0]
            (mkNamespace (Some ["nowhere"]) 0 [".json"] ["latest"] false)
            ["nowhere"] example_world _ _ _).
  - reflexivity.
  - reflexivity.
  - vm_compute. reflexivity.
Defined.

(** C10. Whatever the command line, the skip tokens handed to [cleanup]
    are the default token ["latest"] followed by the tokens given with
    [--skip-token]: the default can be neither removed nor replaced. *)
Theorem default_skip_token_stays argv args :
  parse_args argv = Ok args ->
  ns_skip_tokens args = "latest" :: Spec.skip_token_values argv /\
  "latest" ∈ ns_skip_tokens args /\
  forall target w,
    ns_path args = Some target ->
    is_Some (fs w !! target) ->
    main argv w =
      (let* _ := cleanup target (Z.max (ns_days args) 0)
                   (normalize_extensions (ns_extensions args))
                   ("latest" :: Spec.skip_token_values argv) (ns_dry_run args) in
       ret tt) w.
Proof.
  intros Hargs. pose proof (parse_args_skip_tokens _ _ Hargs) as Htok.
  split; [done|]. split; [rewrite Htok; apply list_elem_of_here|].
  intros target w Hpath Hex.
  by rewrite (main_run _ _ _ _ Hargs Hpath Hex), Htok.
Qed.

Lemma default_skip_token_stays_witness :
  ns_skip_tokens (mkNamespace (Some ["cache"]) 5 [".json"] ["latest"; "_tmp"; "keep"] true)
  = "latest" :: Spec.skip_token_values
      [ArgSkipToken "_tmp"; ArgPath ["cache"]; ArgDryRun; ArgSkipToken "keep"].
Proof.
  refine (proj1 (default_skip_token_stays
            [ArgSkipToken "_tmp"; ArgPath ["cache"]; ArgDryRun; ArgSkipToken "keep"]
            (mkNamespace (Some ["cache"]) 5 [".json"] ["latest"; "_tmp"; "keep"] true) _)).
  reflexivity.
Defined.

(** * Further properties of the script *)

(** ** [normalize_extensions] *)

Lemma lower_char_idemp c : Str.lower_char (Str.lower_char c) = Str.lower_char c.
Proof. destruct c as [[] [] [] [] [] [] [] []]; reflexivity. Qed.

Lemma lower_char_dot c : Str.lower_char c = "."%char <-> c = "."%char.
Proof.
  split; [|by intros ->].
  destruct c as [[] [] [] [] [] [] [] []]; vm_compute; congruence.
Qed.

Lemma lower_idemp s : Str.lower (Str.lower s) = Str.lower s.
Proof. induction s as [|c s IH]; [done|]. simpl. by rewrite lower_char_idemp, IH. Qed.

Lemma lower_app s t : Str.lower (s +:+ t) = Str.lower s +:+ Str.lower t.
Proof. induction s as [|c s IH]; [done|]. rewrite app_cons. simpl. by rewrite IH. Qed.

Lemma startswith_dot s :
  Str.startswith s "." = true <-> exists s', s = String "." s'.
Proof. rewrite startswith_prefix. reflexivity. Qed.

Lemma startswith_dot_lower s :
  Str.startswith (Str.lower s) "." = Str.startswith s ".".
Proof.
  destruct s as [|c s]; [done|]. simpl.
  destruct (decide ("."%char = c)) as [<-|Hne]; [by destruct s|].
  rewrite decide_False; [done|]. intros Heq. apply Hne. symmetry.
  by apply lower_char_dot.
Qed.

Lemma normalize_one_dotted ext :
  let e := if Str.startswith ext "." then Str.lower ext else "." +:+ Str.lower ext in
  Str.startswith e "." = true /\ Str.lower e = e.
Proof.
  simpl. destruct (Str.startswith ext ".") eqn:Hd.
  - by rewrite startswith_dot_lower, lower_idemp.
  - split; [apply startswith_prefix; by eexists|].
    by rewrite lower_app, lower_idemp.
Qed.

Lemma normalize_extensions_fixed exts :
  Forall (fun e => Str.startswith e "." = true /\ Str.lower e = e) exts ->
  normalize_extensions exts = exts.
Proof.
  unfold normalize_extensions. induction 1 as [|e exts [Hd Hl] _ IH]; [done|].
  rewrite fmap_cons, IH, Hd, Hl. done.
Qed.

Lemma normalize_extensions_Forall exts :
  Forall (fun e => Str.startswith e "." = true /\ Str.lower e = e)
    (normalize_extensions exts).
Proof.
  unfold normalize_extensions. apply Forall_fmap, Forall_true.
  intros ext. apply normalize_one_dotted.
Qed.


(** X2. Normalising twice is normalising once, and the case of the
    extensions given does not matter. *)
Theorem normalize_extensions_idempotent exts :
  normalize_extensions (normalize_extensions exts) = normalize_extensions exts /\
  normalize_extensions (Str.lower <$> exts) = normalize_extensions exts.
Proof.
  split; [apply normalize_extensions_fixed, normalize_extensions_Forall|].
  unfold normalize_extensions. rewrite <- list_fmap_compose.
  apply list_fmap_ext. intros _ ext _. simpl.
  by rewrite startswith_dot_lower, lower_idemp.
Qed.

(** ** [gather_candidates] *)

Lemma yields_iff tree extensions skip_tokens p d :
  yields tree extensions skip_tokens p = Some (p, d) <->
  tree !! p = Some File /\
  Str.lower (PathOps.suffix p) ∈ extensions /\
  should_skip p skip_tokens = false /\
  extract_date_from_filename (PathOps.name p) = Ok (Some d).
Proof.
  split.
  - intros (_ & ? & ? & ? & ? & _)%yields_Some. done.
  - intros (Hf & He & Hs & Hd). unfold yields, candidate, is_file.
    rewrite bool_decide_true by done. rewrite bool_decide_true by done.
    simpl. by rewrite Hs, Hd.
Qed.

Lemma gathered_paths tree extensions skip_tokens entries :
  (omap (yields tree extensions skip_tokens) entries).*1
  = filter (fun p => is_Some (yields tree extensions skip_tokens p)) entries.
Proof.
  induction entries as [|p entries IH]; [done|].
  rewrite filter_cons.
  destruct (yields tree extensions skip_tokens p) as [c|] eqn:Hy.
  - rewrite decide_True by done. simpl. rewrite Hy. rewrite fmap_cons. f_equal.
    + by apply yields_Some in Hy as [? _].
    + exact IH.
  - rewrite decide_False by (by intros [? ?]). simpl. rewrite Hy. exact IH.
Qed.


(** ** [cleanup] *)

Lemma elem_of_doomed today keep_days root extensions skip_tokens tree c :
  c ∈ doomed today keep_days root extensions skip_tokens tree <->
  condemned today keep_days c /\ PathOps.below root c.1 /\
  yields tree extensions skip_tokens c.1 = Some c.
Proof.
  unfold doomed. rewrite list_elem_of_filter.
  split; intros [H1 H2]; (split; [done|]); by apply elem_of_gathered.
Qed.

Lemma sublist_fmap_fst {A B} (l1 l2 : list (A * B)) :
  l1 `sublist_of` l2 -> l1.*1 `sublist_of` l2.*1.
Proof. induction 1; simpl; by constructor. Qed.

Lemma NoDup_doomed_paths today keep_days root extensions skip_tokens tree :
  NoDup (doomed today keep_days root extensions skip_tokens tree).*1.
Proof.
  apply (sublist_NoDup _
           (omap (yields tree extensions skip_tokens) (rglob root tree)).*1).
  - rewrite gathered_paths. apply NoDup_filter, NoDup_rglob.
  - apply sublist_fmap_fst. unfold doomed. apply sublist_filter.
Qed.

Lemma elem_of_doomed_paths_inv today keep_days root extensions skip_tokens tree p :
  p ∈ (doomed today keep_days root extensions skip_tokens tree).*1 ->
  exists d, yields tree extensions skip_tokens p = Some (p, d) /\
    PathOps.below root p /\ keep_days < Date.sub_days today d.
Proof.
  intros ([q d] & -> & (Hc & Hb & Hy)%elem_of_doomed)%list_elem_of_fmap.
  simpl in *. by exists d.
Qed.


(** X5. [cleanup] changes the tree in one way only: an entry it changes
    was a regular file below the root, with a matching suffix, protected
    by no skip token, dated in its name and older than the window, the
    run was not a dry run, and the entry is gone afterwards. *)
Theorem cleanup_only_removes_old_candidates root keep_days extensions skip_tokens
    dry_run w p :
  exists r w',
    cleanup root keep_days extensions skip_tokens dry_run w = (Ok r, w') /\
    (fs w' !! p = fs w !! p \/
     (fs w' !! p = None /\ dry_run = false /\
      PathOps.below root p /\
      fs w !! p = Some File /\
      Str.lower (PathOps.suffix p) ∈ extensions /\
      should_skip p skip_tokens = false /\
      exists d, extract_date_from_filename (PathOps.name p) = Ok (Some d) /\
        keep_days < Date.sub_days (clock w) d)).
Proof.
  eexists _, _. split; [apply cleanup_run|]. simpl.
  destruct dry_run; [by left|]. rewrite lookup_remove_all.
  case_decide as Hin; [right|by left].
  apply elem_of_doomed_paths_inv in Hin as (d & Hy & Hb & Hage).
  apply yields_iff in Hy as (? & ? & ? & ?). eauto 10.
Qed.

Lemma doomed_after_removal today keep_days root extensions skip_tokens tree :
  doomed today keep_days root extensions skip_tokens
    (remove_all (doomed today keep_days root extensions skip_tokens tree).*1 tree) = [].
Proof.
  apply elem_of_nil_inv. intros c (Hc & Hb & Hy)%elem_of_doomed.
  apply yields_Some in Hy as Hfile. destruct Hfile as (_ & Hfile & _).
  rewrite lookup_remove_all in Hfile. case_decide as Hin; [done|].
  apply Hin, list_elem_of_fmap. exists c. split; [done|].
  apply elem_of_doomed. split; [done|]. split; [done|].
  rewrite <- Hy. apply yields_local.
  rewrite lookup_remove_all. by rewrite decide_False.
Qed.

(** X6. After a real run, a second run at the same date with the same
    settings finds nothing left to delete. *)
Theorem cleanup_twice_deletes_nothing root keep_days extensions skip_tokens dry_run w r w' :
  cleanup root keep_days extensions skip_tokens false w = (r, w') ->
  cleanup root keep_days extensions skip_tokens dry_run w' =
    (Ok (0, []),
     mkWorld (fs w') (clock w') (stdout w' ++ [summary_line root 0 dry_run])).
Proof.
  rewrite cleanup_run. intros [= <- <-]. rewrite cleanup_run. simpl.
  rewrite doomed_after_removal. simpl. by destruct dry_run.
Qed.

Lemma cleanup_twice_deletes_nothing_witness :
  cleanup ["cache"] 5 [".json"] ["latest"] false
    (cleanup ["cache"] 5 [".json"] ["latest"] false example_world).2
  = (Ok (0, []),
     mkWorld
       (fs (cleanup ["cache"] 5 [".json"] ["latest"] false example_world).2)
       (clock (cleanup ["cache"] 5 [".json"] ["latest"] false example_world).2)
       (stdout (cleanup ["cache"] 5 [".json"] ["latest"] false example_world).2
          ++ [summary_line ["cache"] 0 false])).
Proof.
  apply (cleanup_twice_deletes_nothing ["cache"] 5 [".json"] ["latest"] false
           example_world
           (cleanup ["cache"] 5 [".json"] ["latest"] false example_world).1).
  by destruct (cleanup ["cache"] 5 [".json"] ["latest"] false example_world).
Defined.

Lemma doomed_window_mono today keep_days keep_days' root extensions skip_tokens tree :
  keep_days <= keep_days' ->
  doomed today keep_days' root extensions skip_tokens tree
  = filter (condemned today keep_days')
      (doomed today keep_days root extensions skip_tokens tree).
Proof.
  intros Hle. unfold doomed. rewrite list_filter_filter_l; [done|].
  unfold condemned. intros c. lia.
Qed.

(** X7. A longer retention window deletes no more than a shorter one:
    every path deleted under the longer window is deleted under the
    shorter one, and the count does not grow. *)
Theorem cleanup_window_monotone root keep_days keep_days' extensions skip_tokens
    dry_run w :
  keep_days <= keep_days' ->
  exists n paths w1 n' paths' w2,
    cleanup root keep_days extensions skip_tokens dry_run w = (Ok (n, paths), w1) /\
    cleanup root keep_days' extensions skip_tokens dry_run w = (Ok (n', paths'), w2) /\
    paths' ⊆ paths /\ n' <= n.
Proof.
  intros Hle. eexists _, _, _, _, _, _.
  split; [apply cleanup_run|]. split; [apply cleanup_run|].
  rewrite (doomed_window_mono _ keep_days keep_days') by done. split.
  - intros p (c & -> & [_ Hin]%list_elem_of_filter)%list_elem_of_fmap.
    apply list_elem_of_fmap. by exists c.
  - apply inj_le, length_filter.
Qed.

Lemma cleanup_window_monotone_witness :
  exists n paths w1 n' paths' w2,
    cleanup ["cache"] 0 [".json"] ["latest"] false example_world = (Ok (n, paths), w1) /\
    cleanup ["cache"] 5 [".json"] ["latest"] false example_world = (Ok (n', paths'), w2) /\
    paths' ⊆ paths /\ n' <= n.
Proof.
  apply (cleanup_window_monotone ["cache"] 0 5 [".json"] ["latest"] false example_world).
  discriminate.
Defined.

(** ** [should_skip] *)

Lemma contains_empty_pattern s : Str.contains s "" = true.
Proof. by destruct s. Qed.

Lemma should_skip_empty_token path skip_tokens :
  "" ∈ skip_tokens -> should_skip path skip_tokens = true.
Proof.
  intros Hin. unfold should_skip. apply existsb_exists. exists "".
  split; [by apply list_elem_of_In|]. apply contains_empty_pattern.
Qed.

Lemma should_skip_subseteq path skip_tokens skip_tokens' :
  skip_tokens ⊆ skip_tokens' ->
  should_skip path skip_tokens = true -> should_skip path skip_tokens' = true.
Proof.
  intros Hsub. unfold should_skip. rewrite !existsb_exists.
  intros (t & Hin%list_elem_of_In & Ht). exists t. split; [|done].
  by apply list_elem_of_In, Hsub.
Qed.

Lemma doomed_nil_of_skipped today keep_days root extensions skip_tokens tree :
  (forall p, should_skip p skip_tokens = true) ->
  doomed today keep_days root extensions skip_tokens tree = [].
Proof.
  intros Hall. apply elem_of_nil_inv. intros c (_ & _ & Hy)%elem_of_doomed.
  apply yields_Some in Hy as (_ & _ & _ & Hs & _). rewrite Hall in Hs. done.
Qed.

(** X8. The empty string is a substring of every name: once it is among
    the skip tokens every file is skipped and [cleanup] deletes nothing. *)
Theorem empty_skip_token_protects_everything root keep_days extensions skip_tokens
    dry_run w :
  "" ∈ skip_tokens ->
  (forall p, should_skip p skip_tokens = true) /\
  cleanup root keep_days extensions skip_tokens dry_run w =
    (Ok (0, []),
     mkWorld (fs w) (clock w) (stdout w ++ [summary_line root 0 dry_run])).
Proof.
  intros Hin.
  assert (Hall : forall p, should_skip p skip_tokens = true).
  { intros p. by apply should_skip_empty_token. }
  split; [done|]. rewrite cleanup_run.
  rewrite (doomed_nil_of_skipped _ _ _ _ _ _ Hall). simpl. by destruct dry_run.
Qed.

Lemma empty_skip_token_protects_everything_witness :
  cleanup ["cache"] 0 [".json"] ["latest"; ""] false example_world =
    (Ok (0, []),
     mkWorld (fs example_world) (clock example_world)
       ["[CLEANUP] Completed scanning cache. Removed 0 file(s). Dry-run: no."]).
Proof.
  refine (proj2 (empty_skip_token_protects_everything ["cache"] 0 [".json"]
                   ["latest"; ""] false example_world _)).
  apply list_elem_of_further, list_elem_of_here.
Defined.

(** X9. More skip tokens never delete more: with a list of tokens that
    contains every token of another, each path deleted is also deleted
    under the other list, and the count is no larger. *)
Theorem more_skip_tokens_delete_less root keep_days extensions skip_tokens skip_tokens'
    dry_run w :
  skip_tokens ⊆ skip_tokens' ->
  exists n paths w1 n' paths' w2,
    cleanup root keep_days extensions skip_tokens dry_run w = (Ok (n, paths), w1) /\
    cleanup root keep_days extensions skip_tokens' dry_run w = (Ok (n', paths'), w2) /\
    paths' ⊆ paths /\ n' <= n.
Proof.
  intros Hsub. eexists _, _, _, _, _, _.
  split; [apply cleanup_run|]. split; [apply cleanup_run|].
  assert (Hpaths : (doomed (clock w) keep_days root extensions skip_tokens' (fs w)).*1
                   ⊆ (doomed (clock w) keep_days root extensions skip_tokens (fs w)).*1).
  { intros p (c & -> & (Hc & Hb & Hy)%elem_of_doomed)%list_elem_of_fmap.
    apply list_elem_of_fmap. exists c. split; [done|].
    apply elem_of_doomed. split; [done|]. split; [done|].
    destruct c as [q d]. apply yields_iff in Hy as Hq.
    destruct Hq as (Hf & He & Hs & Hd). apply yields_iff. repeat split; try done.
    destruct (should_skip q skip_tokens) eqn:Hskip; [|done].
    by rewrite (should_skip_subseteq _ _ _ Hsub Hskip) in Hs. }
  split; [done|]. rewrite <- !(length_fmap fst). apply inj_le.
  apply submseteq_length, NoDup_submseteq; [apply NoDup_doomed_paths|].
  intros p Hp. by apply Hpaths.
Qed.

Lemma more_skip_tokens_delete_less_witness :
  exists n paths w1 n' paths' w2,
    cleanup ["cache"] 0 [".json"] ["latest"] false example_world = (Ok (n, paths), w1) /\
    cleanup ["cache"] 0 [".json"] ["latest"; "picks"] false example_world
      = (Ok (n', paths'), w2) /\
    paths' ⊆ paths /\ n' <= n.
Proof.
  apply (more_skip_tokens_delete_less ["cache"] 0 [".json"] ["latest"] ["latest"; "picks"]
           false example_world).
  intros t Ht%list_elem_of_singleton. subst t. apply list_elem_of_here.
Defined.

(** ** [extract_date_from_filename]: names without and with a date *)

Lemma count_digits_app s t :
  count_digits (s +:+ t) = (count_digits s + count_digits t)%nat.
Proof.
  induction s as [|c s IH]; [done|]. rewrite app_cons. simpl. rewrite IH. lia.
Qed.

Lemma count_digits_all g :
  Str.all_digits g = true -> count_digits g = String.length g.
Proof.
  induction g as [|c g IH]; [done|]. simpl.
  intros [-> Hg]%andb_true_iff. by rewrite IH.
Qed.

Lemma shape_count_digits re body gs :
  Spec.shape re body gs -> (digits_needed re <= count_digits body)%nat.
Proof.
  unfold digits_needed.
  induction 1 as [|n re g body gs Hlen Hd Hs IH|c re body gs Hs IH].
  - done.
  - rewrite count_digits_app, count_digits_all, Hlen by done.
    rewrite fmap_cons. simpl. lia.
  - rewrite fmap_cons. simpl in *. lia.
Qed.

Lemma occurs_count_digits re s p gs :
  Spec.occurs re s p gs -> (digits_needed re <= count_digits s)%nat.
Proof.
  intros (pre & body & post & -> & _ & Hs%shape_count_digits).
  rewrite !count_digits_app. lia.
Qed.

Lemma finditer_nil_of_few_digits re s :
  date_pattern re -> (count_digits s < 8)%nat -> Re.finditer re s = [].
Proof.
  intros Hre Hfew. apply elem_of_nil_inv. intros m Hin.
  assert (Hocc : Spec.occurs re s (Re.m_start m) (Re.m_groups m)).
  { eapply occurrences_elem; [|done].
    by apply finditer_occurrences, date_pattern_width. }
  apply occurs_count_digits in Hocc.
  destruct Hre as [-> | ->]; change (8 <= count_digits s)%nat in Hocc; lia.
Qed.

(** X10. A name with fewer than eight decimal digits carries no date. *)
Theorem extract_needs_eight_digits filename :
  (count_digits filename < 8)%nat ->
  extract_date_from_filename filename = Ok None.
Proof.
  intros Hfew. rewrite extract_unfold.
  rewrite !finditer_nil_of_few_digits; [done|by right|done|by left|done].
Qed.

Lemma extract_needs_eight_digits_witness :
  extract_date_from_filename "notes_v2-2025-1-7.json" = Ok None.
Proof.
  apply extract_needs_eight_digits. vm_compute. lia.
Defined.

Lemma drop_app_plus pre t k :
  Str.drop (String.length pre + k) (pre +:+ t) = Str.drop k t.
Proof. induction pre as [|c pre IH]; [done|]. rewrite app_cons. apply IH. Qed.

Lemma drop_app_lt pre t q :
  (q < String.length pre)%nat ->
  exists c rest, Str.drop q pre = String c rest /\
    Str.drop q (pre +:+ t) = String c (rest +:+ t).
Proof.
  revert q. induction pre as [|a pre IH]; intros q Hq; simpl in Hq; [lia|].
  destruct q as [|q].
  - by exists a, pre.
  - rewrite app_cons. simpl. apply IH. lia.
Qed.

Lemma digit_at_app_l pre t q :
  (q < String.length pre)%nat -> digit_at q (pre +:+ t) = digit_at q pre.
Proof.
  intros (c & rest & H1 & H2)%(drop_app_lt pre t). unfold digit_at. by rewrite H1, H2.
Qed.

Lemma digit_at_app_r pre t k :
  digit_at (String.length pre + k) (pre +:+ t) = digit_at k t.
Proof. unfold digit_at. by rewrite drop_app_plus. Qed.

Lemma digit_at_digit_free s q : digit_free s -> digit_at q s = false.
Proof.
  unfold digit_free, digit_at. revert q. induction s as [|c s IH]; intros q Hs.
  - by destruct q.
  - simpl in Hs. destruct (Str.is_digit c) eqn:Hc; [done|].
    destruct q as [|q]; [done|]. by apply IH.
Qed.

Lemma digit_at_all_digits s q :
  Str.all_digits s = true -> (q < String.length s)%nat -> digit_at q s = true.
Proof.
  unfold digit_at. revert q. induction s as [|c s IH]; intros q Hs Hq; simpl in *; [lia|].
  apply andb_true_iff in Hs as [Hc Hs].
  destruct q as [|q]; [done|]. apply IH; [done|lia].
Qed.

Lemma digit_at_beyond s q : (String.length s <= q)%nat -> digit_at q s = false.
Proof. intros Hq. unfold digit_at. by rewrite drop_all. Qed.

(** A digit-free wrapping of [body]: where its digits can be. *)
Lemma digit_at_wrapped pre body post q :
  digit_free pre -> digit_free post ->
  digit_at q (pre +:+ body +:+ post) = true ->
  (String.length pre <= q < String.length pre + String.length body)%nat.
Proof.
  intros Hpre Hpost Hq.
  destruct (decide (q < String.length pre)%nat) as [Hlt|Hge].
  { rewrite digit_at_app_l, digit_at_digit_free in Hq by done. done. }
  split; [lia|].
  destruct (decide (q < String.length pre + String.length body)%nat) as [|Hge']; [done|].
  replace q with (String.length pre
                  + (String.length body + (q - String.length pre - String.length body)))%nat
    in Hq by lia.
  rewrite !digit_at_app_r, digit_at_digit_free in Hq by done. done.
Qed.

Lemma occurs_digit_at n re s q gs :
  Spec.occurs (Re.Digits (S n) :: re) s q gs -> digit_at q s = true.
Proof.
  intros [_ Hm]%occurs_drop. unfold digit_at. simpl in Hm.
  destruct (Str.drop q s) as [|c rest]; [done|].
  by destruct (Str.is_digit c).
Qed.

Lemma occurrences_wrapped re n re' pre body post gs :
  re = Re.Digits (S n) :: re' ->
  digit_free pre -> digit_free post ->
  Spec.shape re body gs ->
  Spec.occurrences re (pre +:+ body +:+ post) 0
    [Re.mkMatch (String.length pre) gs].
Proof.
  intros Hre Hpre Hpost Hs. apply Spec.occ_next.
  - lia.
  - by exists pre, body, post.
  - intros q gs' Hq Hocc. subst re. apply occurs_digit_at in Hocc.
    apply digit_at_wrapped in Hocc; [lia|done..].
  - apply Spec.occ_done. intros q gs' Hq Hocc.
    apply shape_length in Hs. subst re. apply occurs_digit_at in Hocc.
    apply digit_at_wrapped in Hocc; [lia|done..].
Qed.

Lemma length_4_inv s :
  String.length s = 4%nat ->
  exists a b c d, s = String a (String b (String c (String d ""))).
Proof.
  destruct s as [|a [|b [|c [|d [|]]]]]; try done. eauto.
Qed.

Lemma hyphenated_chars s q gs :
  Spec.occurs hyphenated s q gs ->
  digit_at q s = true /\ digit_at (q + 4) s = false /\ digit_at (q + 5) s = true.
Proof.
  intros Hocc. split; [by eapply occurs_digit_at|].
  destruct Hocc as (pre & body & post & -> & <- & Hs).
  apply shape_digits_inv in Hs as (y & b1 & gs1 & -> & -> & Hy & Hyd & Hs).
  apply shape_lit_inv in Hs as (b2 & -> & Hs).
  apply shape_digits_inv in Hs as (m & b3 & gs2 & -> & -> & Hm & Hmd & Hs).
  apply length_4_inv in Hy as (y0 & y1 & y2 & y3 & ->).
  destruct m as [|m0 m]; [done|]. simpl in Hmd.
  apply andb_true_iff in Hmd as [Hm0 _].
  rewrite !digit_at_app_r. unfold digit_at. simpl. by rewrite Hm0.
Qed.

Lemma no_hyphenated_in_digit_run pre body post :
  digit_free pre -> digit_free post -> Str.all_digits body = true ->
  Spec.occurrences hyphenated (pre +:+ body +:+ post) 0 [].
Proof.
  intros Hpre Hpost Hbody. apply Spec.occ_done.
  intros q gs _ (H0 & H4 & H5)%hyphenated_chars.
  apply digit_at_wrapped in H0 as [Hlo Hhi]; [|done..].
  apply digit_at_wrapped in H5 as [_ Hhi5]; [|done..].
  replace (q + 4)%nat with (String.length pre + (q + 4 - String.length pre))%nat
    in H4 by lia.
  rewrite digit_at_app_r, digit_at_app_l in H4 by lia.
  rewrite digit_at_all_digits in H4; [done|done|lia].
Qed.

Lemma all_digits_app s t :
  Str.all_digits (s +:+ t) = Str.all_digits s && Str.all_digits t.
Proof.
  induction s as [|c s IH]; [done|]. rewrite app_cons. simpl.
  by rewrite IH, andb_assoc.
Qed.

Lemma hyphenated_body_shape y m d :
  digit_group 4 y -> digit_group 2 m -> digit_group 2 d ->
  Spec.shape hyphenated (y +:+ "-" +:+ m +:+ "-" +:+ d) [y; m; d].
Proof.
  intros [Hy Hyd] [Hm Hmd] [Hd Hdd].
  rewrite <- (app_empty_r d) at 1.
  apply Spec.shape_digits; [done..|]. apply (Spec.shape_lit "-").
  apply Spec.shape_digits; [done..|]. apply (Spec.shape_lit "-").
  apply Spec.shape_digits; [done..|]. constructor.
Qed.

Lemma compact_body_shape y m d :
  digit_group 4 y -> digit_group 2 m -> digit_group 2 d ->
  Spec.shape compact (y +:+ m +:+ d) [y; m; d].
Proof.
  intros [Hy Hyd] [Hm Hmd] [Hd Hdd].
  rewrite <- (app_empty_r d) at 1.
  apply Spec.shape_digits; [done..|].
  apply Spec.shape_digits; [done..|].
  apply Spec.shape_digits; [done..|]. constructor.
Qed.

Lemma extract_hyphenated_body pre y m d post :
  digit_free pre -> digit_free post ->
  digit_group 4 y -> digit_group 2 m -> digit_group 2 d ->
  extract_date_from_filename (pre +:+ (y +:+ "-" +:+ m +:+ "-" +:+ d) +:+ post)
  = Ok (Spec.calendar_value [y; m; d]).
Proof.
  intros Hpre Hpost Hy Hm Hd.
  apply (extract_chosen _ (Re.mkMatch (String.length pre) [y; m; d])).
  left. exists []. eapply occurrences_wrapped; [reflexivity|done..|].
  by apply hyphenated_body_shape.
Qed.

(** X11. A name made of a digit-free prefix, a hyphenated group
    YYYY-MM-DD of digits and a digit-free suffix yields the calendar
    value of that group. *)
Theorem extract_hyphenated_name pre y m d post :
  digit_free pre -> digit_free post ->
  digit_group 4 y -> digit_group 2 m -> digit_group 2 d ->
  extract_date_from_filename (pre +:+ (y +:+ "-" +:+ m +:+ "-" +:+ d) +:+ post)
  = Ok (Spec.calendar_value [y; m; d]).
Proof. apply extract_hyphenated_body. Qed.

Lemma extract_hyphenated_name_witness :
  extract_date_from_filename "report-2025-11-07.html"
  = Ok (Some (Date.mkDate 2025 11 7)).
Proof.
  by apply (extract_hyphenated_name "report-" "2025" "11" "07" ".html").
Defined.

(** X12. A name made of a digit-free prefix, eight digits YYYYMMDD and a
    digit-free suffix yields the calendar value of those digits. *)
Theorem extract_compact_name pre y m d post :
  digit_free pre -> digit_free post ->
  digit_group 4 y -> digit_group 2 m -> digit_group 2 d ->
  extract_date_from_filename (pre +:+ (y +:+ m +:+ d) +:+ post)
  = Ok (Spec.calendar_value [y; m; d]).
Proof.
  intros Hpre Hpost Hy Hm Hd.
  apply (extract_chosen _ (Re.mkMatch (String.length pre) [y; m; d])).
  right. split.
  - apply no_hyphenated_in_digit_run; [done..|].
    destruct Hy as [_ Hy], Hm as [_ Hm], Hd as [_ Hd].
    by rewrite !all_digits_app, Hy, Hm, Hd.
  - exists []. eapply occurrences_wrapped; [reflexivity|done..|].
    by apply compact_body_shape.
Qed.

Lemma extract_compact_name_witness :
  extract_date_from_filename "picks_abc_20250907.json"
  = Ok (Some (Date.mkDate 2025 9 7)).
Proof.
  by apply (extract_compact_name "picks_abc_" "2025" "09" "07" ".json").
Defined.

Lemma zfill_4_table : forallb (zfill_reads_back 4) (seqZ 0 10000) = true.
Proof. vm_compute. reflexivity. Qed.

Lemma zfill_2_table : forallb (zfill_reads_back 2) (seqZ 0 100) = true.
Proof. vm_compute. reflexivity. Qed.

Lemma zfill_reads_back_spec w n :
  zfill_reads_back w n = true ->
  digit_group w (Str.zfill w n) /\ Spec.decimal (Str.zfill w n) = n.
Proof.
  unfold zfill_reads_back, digit_group.
  intros [[Hl%Nat.eqb_eq Hd]%andb_true_iff Hv%Z.eqb_eq]%andb_true_iff. done.
Qed.

Lemma zfill_4_reads_back n :
  0 <= n <= 9999 -> digit_group 4 (Str.zfill 4 n) /\ Spec.decimal (Str.zfill 4 n) = n.
Proof.
  intros Hn. apply zfill_reads_back_spec.
  pose proof zfill_4_table as Ht. rewrite forallb_forall in Ht.
  apply Ht, list_elem_of_In, elem_of_seqZ. lia.
Qed.

Lemma zfill_2_reads_back n :
  0 <= n <= 99 -> digit_group 2 (Str.zfill 2 n) /\ Spec.decimal (Str.zfill 2 n) = n.
Proof.
  intros Hn. apply zfill_reads_back_spec.
  pose proof zfill_2_table as Ht. rewrite forallb_forall in Ht.
  apply Ht, list_elem_of_In, elem_of_seqZ. lia.
Qed.

Lemma days_in_month_bound y m : Date.days_in_month y m <= 31.
Proof.
  unfold Date.days_in_month. destruct (_ && _); [lia|].
  unfold Date.DAYS_IN_MONTH.
  destruct m as [|p|p]; [lia| |lia].
  repeat (destruct p as [p|p|]; try lia).
Qed.

(** X13. The ISO form of a date, as the log line prints it, reads back:
    between a digit-free prefix and a digit-free suffix it yields the
    date it was printed from. *)
Theorem extract_isoformat_round_trip pre d post :
  Date.valid d -> digit_free pre -> digit_free post ->
  extract_date_from_filename (pre +:+ Date.isoformat d +:+ post) = Ok (Some d).
Proof.
  intros Hvalid Hpre Hpost.
  pose proof (valid_fields _ Hvalid) as (Hy & Hm & Hd).
  pose proof (days_in_month_bound (Date.year d) (Date.month d)) as Hdim.
  destruct (zfill_4_reads_back (Date.year d)) as [Hgy Hvy]; [lia|].
  destruct (zfill_2_reads_back (Date.month d)) as [Hgm Hvm]; [lia|].
  destruct (zfill_2_reads_back (Date.day d)) as [Hgd Hvd]; [lia|].
  unfold Date.isoformat. rewrite extract_hyphenated_body by done.
  unfold Spec.calendar_value. rewrite Hvy, Hvm, Hvd.
  destruct d as [y m dd]. simpl. by rewrite decide_True.
Qed.

Lemma extract_isoformat_round_trip_witness :
  extract_date_from_filename
    ("[CLEANUP] cache/report.json -> dated " +:+ Date.isoformat (Date.mkDate 2024 2 29)
       +:+ " (") = Ok (Some (Date.mkDate 2024 2 29)).
Proof.
  by apply (extract_isoformat_round_trip "[CLEANUP] cache/report.json -> dated "
              (Date.mkDate 2024 2 29) " (").
Defined.

(** ** [parse_args] and [main] *)

Lemma run_action_error ns a e : run_action ns a = Raise e -> e = SystemExit 2.
Proof. destruct a as [| |[|]| |]; simpl; congruence. Qed.

Lemma run_actions_error ns argv e : run_actions ns argv = Raise e -> e = SystemExit 2.
Proof.
  revert ns. induction argv as [|a argv IH]; intros ns; simpl; [done|].
  destruct (run_action ns a) as [ns1|e1] eqn:Ha; simpl.
  - apply IH.
  - intros [= <-]. by eapply run_action_error.
Qed.

Lemma parse_args_error argv e : parse_args argv = Raise e -> e = SystemExit 2.
Proof.
  unfold parse_args. destruct (run_actions defaults argv) as [ns|e1] eqn:Hr; simpl.
  - destruct (ns_path ns); congruence.
  - intros [= <-]. by eapply run_actions_error.
Qed.


Lemma run_actions_dry_run ns argv ns' :
  run_actions ns argv = Ok ns' ->
  ns_dry_run ns = true \/ ArgDryRun ∈ argv -> ns_dry_run ns' = true.
Proof.
  revert ns. induction argv as [|a argv IH]; intros ns H Hdry; simpl in H.
  - simplify_eq. destruct Hdry as [?|Hin]; [done|]. by apply elem_of_nil in Hin.
  - destruct (run_action ns a) as [ns1|] eqn:Ha; simpl in H; [|done].
    apply (IH ns1 H). destruct Hdry as [Hdry|Hin].
    + left. destruct a as [| |[|]| |]; simpl in Ha; by simplify_eq.
    + apply elem_of_cons in Hin as [<-|Hin]; [|by right].
      left. simpl in Ha. by simplify_eq.
Qed.

Lemma parse_args_dry_run argv args :
  parse_args argv = Ok args -> ArgDryRun ∈ argv -> ns_dry_run args = true.
Proof.
  unfold parse_args. destruct (run_actions defaults argv) as [ns|] eqn:Hr; [|done].
  simpl. destruct (ns_path ns); [|done]. intros [= <-] Hin.
  eapply run_actions_dry_run; [done|by right].
Qed.

(** The three ways a run of [main] can go. *)
Lemma main_cases argv w :
  (parse_args argv = Raise (SystemExit 2) /\
   main argv w = (Raise (SystemExit 2), w)) \/
  (exists args target,
     parse_args argv = Ok args /\ ns_path args = Some target /\
     fs w !! target = None /\
     main argv w = (Ok tt, mkWorld (fs w) (clock w) (stdout w ++ [missing_line target]))) \/
  (exists args target,
     parse_args argv = Ok args /\ ns_path args = Some target /\
     is_Some (fs w !! target) /\
     main argv w =
       (Ok tt,
        mkWorld
          (if ns_dry_run args then fs w
           else remove_all (main_doomed args target w).*1 (fs w))
          (clock w)
          (stdout w ++ deletion_lines (clock w) (main_doomed args target w)
             ++ [summary_line target
                   (Z.of_nat (length (main_doomed args target w))) (ns_dry_run args)]))).
Proof.
  destruct (parse_args argv) as [args|e] eqn:Hargs.
  - right. assert (exists target, ns_path args = Some target) as [target Hpath].
    { revert Hargs. unfold parse_args.
      destruct (run_actions defaults argv) as [ns|]; [|done]. simpl.
      destruct (ns_path ns) eqn:Hp; [|done]. intros [= <-]. eauto. }
    destruct (fs w !! target) as [x|] eqn:Hlook.
    + right. exists args, target.
      split; [done|]. split; [done|]. split; [by eexists|].
      rewrite (main_run _ _ _ _ Hargs Hpath) by (by rewrite Hlook).
      unfold bind. rewrite cleanup_run. done.
    + left. exists args, target.
      split; [done|]. split; [done|]. split; [done|].
      unfold main, bind at 1, lift. rewrite Hargs, Hpath. simpl.
      unfold bind at 1, path_exists. rewrite bool_decide_false; [done|].
      rewrite Hlook. by intros [? ?].
  - left. apply parse_args_error in Hargs as Heq. subst e. split; [done|].
    unfold main, bind, lift. by rewrite Hargs.
Qed.



(** X15. With [--dry-run] on the command line [main] never changes the
    tree, whatever the other options are. *)
Theorem main_dry_run_never_mutates argv w :
  ArgDryRun ∈ argv -> fs (main argv w).2 = fs w.
Proof.
  intros Hdry.
  destruct (main_cases argv w)
    as [[_ ->]|[(args & target & _ & _ & _ & ->)
               |(args & target & Hargs & _ & _ & ->)]]; [done..|].
  simpl. by rewrite (parse_args_dry_run _ _ Hargs Hdry).
Qed.

Lemma main_dry_run_never_mutates_witness :
  fs (main [ArgDryRun; ArgPath ["cache"]; ArgDays 0] example_world).2 = fs example_world.
Proof.
  apply main_dry_run_never_mutates. apply list_elem_of_here.
Defined.


Lemma main_lookup argv w p :
  fs (main argv w).2 !! p = fs w !! p \/
  exists args target d,
    parse_args argv = Ok args /\ ns_path args = Some target /\
    ns_dry_run args = false /\
    PathOps.below target p /\
    fs w !! p = Some File /\
    fs (main argv w).2 !! p = None /\
    Str.lower (PathOps.suffix p) ∈ normalize_extensions (ns_extensions args) /\
    should_skip p (ns_skip_tokens args) = false /\
    extract_date_from_filename (PathOps.name p) = Ok (Some d) /\
    Z.max (ns_days args) 0 < Date.sub_days (clock w) d.
Proof.
  destruct (main_cases argv w)
    as [[_ ->]|[(args & target & _ & _ & _ & ->)
               |(args & target & Hargs & Hpath & _ & ->)]]; [by left..|].
  simpl. destruct (ns_dry_run args) eqn:Hdry; [by left|].
  rewrite lookup_remove_all. case_decide as Hin; [right|by left].
  apply elem_of_doomed_paths_inv in Hin as (d & Hy & Hb & Hage).
  apply yields_iff in Hy as (? & ? & ? & ?).
  exists args, target, d. eauto 12.
Qed.

(** X17. An entry that [main] changes was a regular file below the
    target directory, the run was not a dry run, the suffix of the file
    is among the normalised extensions, no skip token protects it, its
    name carries a date older than the window in force, and the entry is
    gone afterwards. *)
Theorem main_only_removes_old_candidates argv w p :
  fs (main argv w).2 !! p <> fs w !! p ->
  exists args target d,
    parse_args argv = Ok args /\ ns_path args = Some target /\
    ns_dry_run args = false /\
    PathOps.below target p /\
    fs w !! p = Some File /\
    fs (main argv w).2 !! p = None /\
    Str.lower (PathOps.suffix p) ∈ normalize_extensions (ns_extensions args) /\
    should_skip p (ns_skip_tokens args) = false /\
    extract_date_from_filename (PathOps.name p) = Ok (Some d) /\
    Z.max (ns_days args) 0 < Date.sub_days (clock w) d.
Proof. intros Hne. by destruct (main_lookup argv w p). Qed.

Lemma main_only_removes_old_candidates_witness :
  exists args target d,
    parse_args [ArgPath ["logs"]; ArgExtensions ["JSON"]] = Ok args /\
    ns_path args = Some target /\
    ns_dry_run args = false /\
    PathOps.below target ["logs"; "old_20200101.json"] /\
    fs archive_world !! ["logs"; "old_20200101.json"] = Some File /\
    fs (main [ArgPath ["logs"]; ArgExtensions ["JSON"]] archive_world).2
      !! ["logs"; "old_20200101.json"] = None /\
    Str.lower (PathOps.suffix ["logs"; "old_20200101.json"])
      ∈ normalize_extensions (ns_extensions args) /\
    should_skip ["logs"; "old_20200101.json"] (ns_skip_tokens args) = false /\
    extract_date_from_filename (PathOps.name ["logs"; "old_20200101.json"])
      = Ok (Some d) /\
    Z.max (ns_days args) 0 < Date.sub_days (clock archive_world) d.
Proof.
  apply (main_only_removes_old_candidates [ArgPath ["logs"]; ArgExtensions ["JSON"]]
           archive_world ["logs"; "old_20200101.json"]).
  vm_compute. discriminate.
Defined.

Lemma sub_days_nonpos today d :
  Date.valid today -> Date.valid d -> ~ Date.lt d today ->
  Date.sub_days today d <= 0.
Proof.
  intros Ht Hd Hnlt. unfold Date.sub_days.
  destruct today as [y m dd], d as [y' m' dd'].
  destruct (decide (y = y' /\ m = m' /\ dd = dd')) as [(-> & -> & ->)|Hne]; [lia|].
  enough (Date.lt (Date.mkDate y m dd) (Date.mkDate y' m' dd')) as Hlt.
  { pose proof (toordinal_mono _ _ Ht Hd Hlt). lia. }
  unfold Date.lt in *. simpl in *. lia.
Qed.

(** X18. [main] never changes the entry of a file whose name is dated
    today or later, whatever the options are. *)
Theorem main_keeps_today_and_later argv w p d :
  Date.valid (clock w) ->
  extract_date_from_filename (PathOps.name p) = Ok (Some d) ->
  ~ Date.lt d (clock w) ->
  fs (main argv w).2 !! p = fs w !! p.
Proof.
  intros Htoday Hd Hnlt.
  destruct (main_lookup argv w p)
    as [?|(args & target & d' & _ & _ & _ & _ & _ & _ & _ & _ & Hd' & Hage)]; [done|].
  rewrite Hd in Hd'. injection Hd' as <-.
  destruct (extract_total (PathOps.name p)) as (r & Hr & Hv).
  rewrite Hd in Hr. injection Hr as <-.
  pose proof (sub_days_nonpos _ _ Htoday (Hv d eq_refl) Hnlt). lia.
Qed.

Lemma main_keeps_today_and_later_witness :
  fs (main [ArgPath ["logs"]; ArgDays (-7)] archive_world).2
    !! ["logs"; "today_20250110.json"] = Some File.
Proof.
  refine (main_keeps_today_and_later [ArgPath ["logs"]; ArgDays (-7)] archive_world
            ["logs"; "today_20250110.json"] (Date.mkDate 2025 1 10) _ _ _).
  - reflexivity.
  - reflexivity.
  - unfold Date.lt. simpl. lia.
Defined.

(** X19. [main] never changes the entry of a file whose name has no
    suffix: every normalised extension starts with a dot. *)
Theorem main_keeps_files_without_suffix argv w p :
  PathOps.suffix p = "" ->
  fs (main argv w).2 !! p = fs w !! p.
Proof.
  intros Hsuf.
  destruct (main_lookup argv w p)
    as [?|(args & target & d & _ & _ & _ & _ & _ & _ & Hext & _)]; [done|].
  rewrite Hsuf in Hext. simpl in Hext.
  pose proof (normalize_extensions_Forall (ns_extensions args)) as Hall.
  rewrite Forall_forall in Hall. by destruct (Hall _ Hext).
Qed.

Lemma main_keeps_files_without_suffix_witness :
  fs (main [ArgPath ["logs"]; ArgDays 0; ArgExtensions [""]] archive_world).2
    !! ["logs"; "backup_20200101"] = Some File.
Proof.
  refine (main_keeps_files_without_suffix
            [ArgPath ["logs"]; ArgDays 0; ArgExtensions [""]] archive_world
            ["logs"; "backup_20200101"] _).
  reflexivity.
Defined.

(** X20. When no regular file lies below the root (an empty directory,
    or a root that is itself a file), [cleanup] returns a count of zero
    and an empty list, leaves the tree alone and prints the summary line
    only. *)
Theorem cleanup_nothing_below_root root keep_days extensions skip_tokens dry_run w :
  (forall p, PathOps.below root p -> fs w !! p <> Some File) ->
  cleanup root keep_days extensions skip_tokens dry_run w =
    (Ok (0, []),
     mkWorld (fs w) (clock w) (stdout w ++ [summary_line root 0 dry_run])).
Proof.
  intros Hnone. rewrite cleanup_run.
  assert (Hnil : doomed (clock w) keep_days root extensions skip_tokens (fs w) = []).
  { apply elem_of_nil_inv. intros c (_ & Hb & Hy)%elem_of_doomed.
    apply yields_Some in Hy as (_ & Hf & _). by destruct (Hnone _ Hb). }
  rewrite Hnil. simpl. by destruct dry_run.
Qed.

Lemma cleanup_nothing_below_root_witness :
  cleanup ["cache"; "report_20250101.json"] 0 [".json"] [] false example_world =
    (Ok (0, []),
     mkWorld (fs example_world) (clock example_world)
       ["[CLEANUP] Completed scanning cache/report_20250101.json. Removed 0 file(s). Dry-run: no."]).
Proof.
  apply (cleanup_nothing_below_root ["cache"; "report_20250101.json"] 0 [".json"] []
           false example_world).
  intros p [[k Hk] Hne] Hf. apply elem_of_map_to_list in Hf.
  vm_compute in Hf.
  repeat (apply elem_of_cons in Hf as [Hf|Hf]; [by simplify_eq|]).
  by apply elem_of_nil in Hf.
Defined.

Lemma run_actions_defaults ns argv ns' :
  run_actions ns argv = Ok ns' ->
  ((forall n, ArgDays n ∉ argv) -> ns_days ns' = ns_days ns) /\
  ((forall exts, ArgExtensions exts ∉ argv) -> ns_extensions ns' = ns_extensions ns) /\
  (ArgDryRun ∉ argv -> ns_dry_run ns' = ns_dry_run ns) /\
  ((forall t, ArgSkipToken t ∉ argv) -> ns_skip_tokens ns' = ns_skip_tokens ns).
Proof.
  revert ns. induction argv as [|a argv IH]; intros ns H; simpl in H.
  - by simplify_eq.
  - destruct (run_action ns a) as [ns1|] eqn:Ha; simpl in H; [|done].
    destruct (IH _ H) as (IHd & IHe & IHr & IHt).
    split; [|split; [|split]].
    + intros Hno. rewrite IHd by (intros n Hn; apply (Hno n); by right).
      destruct a as [|n|[|]| |]; simpl in Ha; simplify_eq; try done.
      destruct (Hno n). by left.
    + intros Hno. rewrite IHe by (intros e He; apply (Hno e); by right).
      destruct a as [| |[|e es]| |]; simpl in Ha; simplify_eq; try done.
      destruct (Hno (e :: es)). by left.
    + intros Hno. rewrite IHr by (intros Hr; apply Hno; by right).
      destruct a as [| |[|]| |]; simpl in Ha; simplify_eq; try done.
      destruct Hno. by left.
    + intros Hno. rewrite IHt by (intros t Ht; apply (Hno t); by right).
      destruct a as [| |[|]|t|]; simpl in Ha; simplify_eq; try done.
      destruct (Hno t). by left.
Qed.

(** X21. An option that is not on the command line keeps its default:
    five days, the extension [.json], the one skip token [latest], and a
    real run rather than a dry run. *)
Theorem parse_args_defaults argv args :
  parse_args argv = Ok args ->
  ((forall n, ArgDays n ∉ argv) -> ns_days args = 5) /\
  ((forall exts, ArgExtensions exts ∉ argv) -> ns_extensions args = [".json"]) /\
  (ArgDryRun ∉ argv -> ns_dry_run args = false) /\
  ((forall t, ArgSkipToken t ∉ argv) -> ns_skip_tokens args = ["latest"]).
Proof.
  unfold parse_args. destruct (run_actions defaults argv) as [ns|] eqn:Hr; [|done].
  simpl. destruct (ns_path ns); [|done]. intros [= <-].
  apply (run_actions_defaults _ _ _ Hr).
Qed.

Lemma parse_args_defaults_witness :
  parse_args [ArgPath ["cache"]] = Ok (mkNamespace (Some ["cache"]) 5 [".json"] ["latest"] false) /\
  ns_days (mkNamespace (Some ["cache"]) 5 [".json"] ["latest"] false) = 5.
Proof.
  split; [reflexivity|].
  refine (proj1 (parse_args_defaults [ArgPath ["cache"]]
                   (mkNamespace (Some ["cache"]) 5 [".json"] ["latest"] false) _) _).
  - reflexivity.
  - intros n Hn%list_elem_of_singleton. discriminate.
Defined.
